(** * em-lens-correction: metafile to point-match collection

    A shallow embedding of [lens_correction/meta_to_collection.py]
    (class [MetaToCollection]) and the properties of its neighbour
    resolver and correspondence extractor.

    Conventions of the embedding
    - Python [int] is [Z]; JSON numbers that are only compared or passed
      through (match quality, point coordinates, stage positions,
      calibration) are the rationals [Q] they denote.
    - Python [str] is [string]; [str(int)] is the decimal rendering.
    - the dict [args.raster_pos_lookup] is a [gmap string Tile];
      subscripting a missing key raises [KeyError].
    - a Python call that may raise returns [Exc + A]; a function whose
      Python result is [Tile | None] returns [Exc + option Tile].
    - the output file system is a [gmap string Output] (path to the
      document dumped there); whether [open(path, 'w')] succeeds depends
      on directories and permissions the map does not carry and is an
      input of [process].
    - the metafile, when it parses, has the blocks and keys [process]
      reads, with values of the types the records give them. *)

From Stdlib Require Import ZArith QArith String Ascii List Lia.
From Stdlib Require Import DecimalString DecimalZ.
From stdpp Require Import gmap strings list fin_maps.
Import ListNotations.

#[local] Open Scope string_scope.
#[local] Open Scope Z_scope.

(** ** Exceptions and the error monad *)

Inductive Exc : Type :=
| Exception (msg : string)        (* raise Exception(...) in [process] *)
| ValueError (msg : string)       (* max() of an empty list *)
| KeyError (key : string)         (* dict subscript on a missing key *)
| OverflowError (msg : string)    (* float() of an int beyond the doubles *)
| OSError (name : string).        (* open() on a path that cannot be opened *)

Definition result (A : Type) : Type := (Exc + A)%type.

Definition ret {A} (a : A) : result A := inr a.
Definition raise {A} (e : Exc) : result A := inl e.
Definition bind {A B} (m : result A) (k : A -> result B) : result B :=
  match m with
  | inl e => inl e
  | inr a => k a
  end.

Notation "'let*' x ':=' m 'in' k" := (bind m (fun x => k))
  (at level 10, x name, m at level 100, k at level 200).

(** A [for] loop whose body may raise: the first exception aborts it. *)
Fixpoint for_each {S A} (body : S -> A -> result S) (s : S) (l : list A)
  : result S :=
  match l with
  | [] => ret s
  | a :: l' => let* s' := body s a in for_each body s' l'
  end.

(** ** Position codes in the metafile ([class Edge(IntEnum)]) *)

Inductive Edge : Type := INVALID | CENTER | LEFT | TOP | RIGHT.

Definition Edge_value (e : Edge) : Z :=
  match e with
  | INVALID => 0
  | CENTER => 1
  | LEFT => 2
  | TOP => 3
  | RIGHT => 4
  end.

(** [direction == Edge.X]: [direction] is [None] or the integer code
    read from the metafile; an [IntEnum] member compares as its value. *)
Definition direction_is (direction : option Z) (e : Edge) : bool :=
  match direction with
  | None => false
  | Some d => d =? Edge_value e
  end.

(** ** Input data: the parsed metafile *)

Record ImgMeta : Type := {
  raster_pos : Z * Z;              (* [col, row] *)
  stage_pos : Q * Q
}.

Record Match : Type := {
  position : option Z;             (* [None] is JSON null *)
  match_quality : Q;
  pX : list Q;
  pY : list Q;
  qX : list Q;
  qY : list Q
}.

Record Tile : Type := {
  img_path : string;
  img_meta : ImgMeta;
  matcher : option (list Match)    (* ['matcher' in tile] *)
}.

Record Calibration : Type := {
  nm_per_pix : Q;
  angle : Q
}.

Record Metadata : Type := {
  temca_id : string;
  session_id : string;
  specimen_id : string;
  tape_id : option string;
  calibration_highmag : Calibration   (* metadata['calibration']['highmag'] *)
}.

(** [json_data]: element 0 holds the metadata, element 1 the data. *)
Definition JsonData : Type := (Metadata * list Tile)%type.

(** ** The [args] namespace

    [process] and [create_raster_pos_dict] attach their results to the
    argparse namespace; the record carries those attributes. *)

Record Args : Type := {
  directory : string;
  output_file : string;
  data : list Tile;
  trows : Z;
  tcols : Z;
  raster_pos_lookup : gmap string Tile
}.

Definition set_data (args : Args) (d : list Tile) : Args :=
  {| directory := directory args; output_file := output_file args;
     data := d; trows := trows args; tcols := tcols args;
     raster_pos_lookup := raster_pos_lookup args |}.

Definition set_trows (args : Args) (n : Z) : Args :=
  {| directory := directory args; output_file := output_file args;
     data := data args; trows := n; tcols := tcols args;
     raster_pos_lookup := raster_pos_lookup args |}.

Definition set_tcols (args : Args) (n : Z) : Args :=
  {| directory := directory args; output_file := output_file args;
     data := data args; trows := trows args; tcols := n;
     raster_pos_lookup := raster_pos_lookup args |}.

Definition set_raster_pos_lookup (args : Args) (m : gmap string Tile) : Args :=
  {| directory := directory args; output_file := output_file args;
     data := data args; trows := trows args; tcols := tcols args;
     raster_pos_lookup := m |}.

(** ** Strings *)

(** [str(n)] for a Python integer. *)
Definition str (n : Z) : string := NilEmpty.string_of_int (Z.to_int n).

(** The dictionary key [str(col) + "_" + str(row)]. *)
Definition raster_key (col row : Z) : string :=
  String.append (str col) (String.append "_" (str row)).

(** [s[k:]] *)
Fixpoint drop_chars (k : nat) (s : string) : string :=
  match k, s with
  | O, _ => s
  | S k', EmptyString => EmptyString
  | S k', String _ s' => drop_chars k' s'
  end.

(** [old in s] *)
Fixpoint occurs (old s : string) : bool :=
  String.prefix old s ||
  match s with
  | EmptyString => false
  | String _ s' => occurs old s'
  end.

(** [s.replace(old, new)] for a non-empty [old]: the occurrences are taken
    left to right and do not overlap.  [skip] counts the characters of a
    matched occurrence that are still to be passed over. *)
Fixpoint replace_from (old new : string) (skip : nat) (s : string) : string :=
  match s with
  | EmptyString => EmptyString
  | String c s' =>
      match skip with
      | S k => replace_from old new k s'
      | O =>
          if String.prefix old s
          then String.append new (replace_from old new (String.length old - 1) s')
          else String c (replace_from old new 0 s')
      end
  end.

Definition replace (old new s : string) : string := replace_from old new 0 s.

(** ** Neighbour resolution *)

(** [d[key]] *)
Definition subscript (d : gmap string Tile) (key : string) : result Tile :=
  match d !! key with
  | Some t => ret t
  | None => raise (KeyError key)
  end.

(** [tile_from_raster_pos(self, args, col, row, direction=None)].
    Falling off the end of the [if]/[elif] chain returns [None]. *)
Definition tile_from_raster_pos (args : Args) (col row : Z)
    (direction : option Z) : result (option Tile) :=
  match direction with
  | None =>
      let* t := subscript (raster_pos_lookup args) (raster_key col row) in ret (Some t)
  | Some _ =>
      if direction_is direction LEFT then
        if 0 <? col then
          let* t := subscript (raster_pos_lookup args) (raster_key (col - 1) row) in
          ret (Some t)
        else ret None
      else if direction_is direction RIGHT then
        if col <? tcols args then
          let* t := subscript (raster_pos_lookup args) (raster_key (col + 1) row) in
          ret (Some t)
        else ret None
      else if direction_is direction TOP then
        if 0 <? row then
          let* t := subscript (raster_pos_lookup args) (raster_key col (row - 1)) in
          ret (Some t)
        else ret None
      else ret None
  end.

(** [tile_from_tile(self, args, tile, direction=None)] *)
Definition tile_from_tile (args : Args) (tile : Tile) (direction : option Z)
  : result (option Tile) :=
  let '(col, row) := raster_pos (img_meta tile) in
  tile_from_raster_pos args col row direction.

(** [create_raster_pos_dict(self, args)]: later tiles overwrite earlier
    ones that share a raster position. *)
Definition create_raster_pos_dict (args : Args) : Args :=
  set_raster_pos_lookup args
    (fold_left
       (fun lookup tile =>
          let '(col, row) := raster_pos (img_meta tile) in
          <[raster_key col row := tile]> lookup)
       (data args) ∅).

(** ** Output data *)

Record Matches : Type := {
  matches_p : list Q * list Q;     (* 'p': [pX, pY] *)
  matches_q : list Q * list Q;     (* 'q': [qX, qY] *)
  matches_w : list Z;              (* 'w' *)
  match_count : Z
}.

(** One entry of [samples]: a correspondence between two tiles. *)
Record Sample : Type := {
  pId : string;
  qId : string;
  pGroupId : string;
  qGroupId : string;
  matches : Matches
}.

Record TileSpec : Type := {
  tileId : string;
  xstage : Q;
  ystage : Q
}.

(** The two shapes the variable [output] takes in [process]: the dict
    with the collection, the calibration and the tilespecs, and the bare
    list of samples. *)
Inductive Output : Type :=
| OutputDict (collection : list Sample) (calibration : Calibration)
             (tilespecs : list TileSpec)
| OutputList (samples : list Sample).

(** Files written with [json.dump], by path. *)
Abbreviation FileSystem := (gmap string Output).

(** ** The extractor *)

(** [max(l)]; the message is the one of CPython up to 3.11. *)
Definition max (l : list Z) : result Z :=
  match l with
  | [] => raise (ValueError "max() arg is an empty sequence")
  | x :: l' => ret (fold_left Z.max l' x)
  end.

(** The double nearest to the integer [z], ties to even: an integer of
    at most 53 significant bits is kept, a longer one is rounded at its
    53rd bit. *)
Definition round_to_double (z : Z) : Z :=
  let a := Z.abs z in
  let e := Z.log2 a - 52 in
  if e <=? 0 then z
  else
    let q := a / 2 ^ e in
    let r := a mod 2 ^ e in
    let half := 2 ^ (e - 1) in
    let q' := if r <? half then q
              else if half <? r then q + 1
              else if Z.even q then q else q + 1 in
    Z.sgn z * (q' * 2 ^ e).

(** [float(x)] on a parsed number.  A number that is not an integer is a
    Python float already and is returned; an integer is rounded to the
    nearest double, and [OverflowError] is raised when that is 2^1024 or
    beyond. *)
Definition float (x : Q) : result Q :=
  if (Qden (Qred x) =? 1)%positive then
    let z := round_to_double (Qnum (Qred x)) in
    if Z.abs z <? 2 ^ 1024 then ret (inject_Z z)
    else raise (OverflowError "int too large to convert to float")
  else ret x.

(** [match_quality == -1] *)
Definition is_no_match (quality : Q) : bool := Qeq_bool quality (-1 # 1).

(** Body of [for match in tile['matcher']] (lines 145-171).  A tile taken
    from the lookup is a non-empty dict, so [if neighbor:] tests it
    against [None]. *)
Definition match_body (args : Args) (tile : Tile) (pId_ pGroupId_ qGroupId_ : string)
    (samples : list Sample) (match_ : Match) : result (list Sample) :=
  let position_ := position match_ in
  let match_quality_ := match_quality match_ in
  if is_no_match match_quality_ then ret samples
  else
    let* neighbor := tile_from_tile args tile position_ in
    match neighbor with
    | Some neighbor =>
        let p := (pX match_, pY match_) in
        let q := (qX match_, qY match_) in
        let w := replicate (length (pX match_)) 1 in
        let qId_ := img_path neighbor in
        let qId_ := replace ".tif" EmptyString qId_ in
        ret (samples ++
             [{| pId := pId_; qId := qId_;
                 pGroupId := pGroupId_; qGroupId := qGroupId_;
                 matches := {| matches_p := p; matches_q := q; matches_w := w;
                               match_count := Z.of_nat (length w) |} |}])%list
    | None => ret samples
    end.

(** Body of [for index, tile in enumerate(data)] (lines 127-171); the
    loop state is [(samples, tilespecs)]. *)
Definition tile_body (args : Args) (pGroupId_ qGroupId_ : string)
    (st : list Sample * list TileSpec) (tile : Tile)
  : result (list Sample * list TileSpec) :=
  let '(samples, tilespecs) := st in
  let pId_ := img_path tile in
  let pId_ := replace ".tif" EmptyString pId_ in
  let* xstage_ := float (fst (stage_pos (img_meta tile))) in
  let* ystage_ := float (snd (stage_pos (img_meta tile))) in
  let tilespec := {| tileId := pId_; xstage := xstage_; ystage := ystage_ |} in
  let tilespecs := (tilespecs ++ [tilespec])%list in
  match matcher tile with
  | Some ms =>
      let* samples := for_each (match_body args tile pId_ pGroupId_ qGroupId_) samples ms in
      ret (samples, tilespecs)
  | None => ret (samples, tilespecs)
  end.

(** [process(self, args)].  [metafile] is what the [try] block obtains:
    [None] when no metafile is found or it does not parse.  [open_w path]
    is what [open(path, 'w')] does on the machine: [None] when the file
    opens, the exception raised otherwise.  The result is the file system
    after the call together with the outcome. *)
Definition process (open_w : string -> option Exc) (metafile : option JsonData)
    (args : Args) (fs : FileSystem) : FileSystem * result unit :=
  match metafile with
  | None =>
      (fs, raise (Exception
                    (String.append "Cannot find or parse metafile in: " (directory args))))
  | Some json_data =>
      let metadata := fst json_data in
      let args := set_data args (snd json_data) in
      let session_id_ := session_id metadata in
      let calibration := calibration_highmag metadata in
      let computed :=
        let* rows := max (map (fun tile => snd (raster_pos (img_meta tile))) (data args)) in
        let args := set_trows args rows in
        let* cols := max (map (fun tile => fst (raster_pos (img_meta tile))) (data args)) in
        let args := set_tcols args cols in
        let args := create_raster_pos_dict args in
        let qGroupId_ := session_id_ in
        let pGroupId_ := session_id_ in
        let* st := for_each (tile_body args pGroupId_ qGroupId_) ([], []) (data args) in
        let '(samples, tilespecs) := st in
        let* nm_per_pix_ := float (nm_per_pix calibration) in
        let* angle_ := float (angle calibration) in
        let output :=
          OutputDict samples {| nm_per_pix := nm_per_pix_; angle := angle_ |}
                     tilespecs in
        let output := OutputList samples in
        ret output in
      match computed with
      | inl e => (fs, inl e)
      | inr output =>
          match open_w (output_file args) with
          | Some e => (fs, inl e)
          | None => (<[output_file args := output]> fs, ret tt)
          end
      end
  end.

(** ** Vocabulary of the statements *)

(** The tile that occupies a cell: the last tile of the list recorded at
    that raster position, if any. *)
Fixpoint occupant (tiles : list Tile) (col row : Z) : option Tile :=
  match tiles with
  | [] => None
  | t :: ts =>
      match occupant ts col row with
      | Some t' => Some t'
      | None => if decide (raster_pos (img_meta t) = (col, row)) then Some t else None
      end
  end.

(** The namespace as [process] has it when the tile loop starts: the
    data, the grid bounds and the dictionary are in place. *)
Definition session_args (args : Args) (tiles : list Tile) (rows cols : Z) : Args :=
  create_raster_pos_dict (set_tcols (set_trows (set_data args tiles) rows) cols).

(** The test that guards the dictionary access for a direction. *)
Definition boundary_check (args : Args) (col row : Z) (e : Edge) : bool :=
  match e with
  | LEFT => 0 <? col
  | RIGHT => col <? tcols args
  | TOP => 0 <? row
  | _ => false
  end.

(** The cell a direction points to. *)
Definition target_cell (col row : Z) (e : Edge) : Z * Z :=
  match e with
  | LEFT => (col - 1, row)
  | RIGHT => (col + 1, row)
  | TOP => (col, row - 1)
  | _ => (col, row)
  end.

Definition is_neighbor_direction (e : Edge) : bool :=
  match e with
  | LEFT | TOP | RIGHT => true
  | _ => false
  end.

(** The correspondence appended for match [m] of [tile] when it resolves
    to [neighbor]. *)
Definition correspondence (group : string) (tile neighbor : Tile) (m : Match) : Sample :=
  {| pId := replace ".tif" EmptyString (img_path tile);
     qId := replace ".tif" EmptyString (img_path neighbor);
     pGroupId := group; qGroupId := group;
     matches := {| matches_p := (pX m, pY m); matches_q := (qX m, qY m);
                   matches_w := replicate (length (pX m)) 1;
                   match_count := Z.of_nat (length (pX m)) |} |}.

(** [c] was appended for some match record of some tile of [tiles]:
    the record does not carry the sentinel and the resolver returned the
    neighbour [n] for it. *)
Definition emitted_from (args : Args) (group : string) (tiles : list Tile)
    (c : Sample) : Prop :=
  exists tile ms m n,
    In tile tiles /\ matcher tile = Some ms /\ In m ms /\
    is_no_match (match_quality m) = false /\
    tile_from_tile args tile (position m) = inr (Some n) /\
    c = correspondence group tile n m.

(** The lists [max] is applied to in [process]. *)
Definition raster_rows (tiles : list Tile) : list Z :=
  map (fun tile => snd (raster_pos (img_meta tile))) tiles.
Definition raster_cols (tiles : list Tile) : list Z :=
  map (fun tile => fst (raster_pos (img_meta tile))) tiles.

(** What [float(x)] returns when it returns. *)
Definition float_value (x : Q) : Q :=
  match float x with
  | inr y => y
  | inl _ => x
  end.

(** The tilespec [process] builds for a tile. *)
Definition tilespec_of (tile : Tile) : TileSpec :=
  {| tileId := replace ".tif" EmptyString (img_path tile);
     xstage := float_value (fst (stage_pos (img_meta tile)));
     ystage := float_value (snd (stage_pos (img_meta tile))) |}.

(** [float] accepts both stage coordinates of the tile. *)
Definition stage_converts (tile : Tile) : Prop :=
  (exists x, float (fst (stage_pos (img_meta tile))) = inr x) /\
  (exists y, float (snd (stage_pos (img_meta tile))) = inr y).

(** [float] accepts both numbers of the calibration block. *)
Definition calibration_converts (md : Metadata) : Prop :=
  (exists x, float (nm_per_pix (calibration_highmag md)) = inr x) /\
  (exists y, float (angle (calibration_highmag md)) = inr y).

(** All five arrays of a correspondence have the recorded length. *)
Definition well_shaped (c : Sample) : Prop :=
  let n := match_count (matches c) in
  Z.of_nat (length (fst (matches_p (matches c)))) = n /\
  Z.of_nat (length (snd (matches_p (matches c)))) = n /\
  Z.of_nat (length (fst (matches_q (matches c)))) = n /\
  Z.of_nat (length (snd (matches_q (matches c)))) = n /\
  Z.of_nat (length (matches_w (matches c))) = n.

(** The four coordinate arrays of a match record have one length. *)
Definition same_lengths (m : Match) : Prop :=
  length (pY m) = length (pX m) /\
  length (qX m) = length (pX m) /\
  length (qY m) = length (pX m).

(** Stripping an extension as a suffix: the path without its last
    [length ext] characters when it ends with [ext], the path itself
    otherwise. *)
Fixpoint strip_extension (ext s : string) : string :=
  if String.eqb s ext then EmptyString
  else match s with
       | EmptyString => EmptyString
       | String c s' => String c (strip_extension ext s')
       end.

(** ** Example sessions *)

Definition tile_at (path : string) (col row : Z) (ms : option (list Match)) : Tile :=
  {| img_path := path;
     img_meta := {| raster_pos := (col, row); stage_pos := (0, 0)%Q |};
     matcher := ms |}.

Definition match_to (direction : option Z) (quality : Q) (px py qx qy : list Q) : Match :=
  {| position := direction; match_quality := quality;
     pX := px; pY := py; qX := qx; qY := qy |}.

Definition example_metadata : Metadata :=
  {| temca_id := "temca3"; session_id := "20190215"; specimen_id := "s0";
     tape_id := None;
     calibration_highmag := {| nm_per_pix := (4 # 1)%Q; angle := (0 # 1)%Q |} |}.

(** A machine on which every path opens for writing. *)
Definition always_opens (path : string) : option Exc := None.

(** A machine on which no path opens for writing. *)
Definition never_opens (path : string) : option Exc := Some (OSError "PermissionError").

(** The namespace as [main] hands it to [process]. *)
Definition example_args : Args :=
  {| directory := "0"; output_file := "test.json"; data := [];
     trows := 0; tcols := 0; raster_pos_lookup := ∅ |}.

(** Two adjacent tiles; the RIGHT match of the first has two x
    coordinates and one y coordinate on the p side. *)
Definition ragged_match : Match :=
  match_to (Some 4) (7 # 10)%Q [1; 2]%Q [3]%Q [4; 5]%Q [6; 7]%Q.
Definition ragged_left : Tile := tile_at "a.tif" 0 0 (Some [ragged_match]).
Definition ragged_right : Tile := tile_at "b.tif" 1 0 None.
Definition ragged_row : list Tile := [ragged_left; ragged_right].

(** A row with a gap: columns 0 and 2 are captured, column 1 is not. *)
Definition gap_match : Match :=
  match_to (Some 4) (7 # 10)%Q [1]%Q [1]%Q [1]%Q [1]%Q.
Definition gap_left : Tile := tile_at "a.tif" 0 0 (Some [gap_match]).
Definition gap_row : list Tile := [gap_left; tile_at "c.tif" 2 0 None].

(** Two adjacent tiles below a directory whose name contains ".tif". *)
Definition dotted_match : Match :=
  match_to (Some 4) (7 # 10)%Q [1]%Q [1]%Q [1]%Q [1]%Q.
Definition dotted_left : Tile :=
  tile_at "scan.tif_07/tile_001.tif" 0 0 (Some [dotted_match]).
Definition dotted_right : Tile := tile_at "scan.tif_07/tile_002.tif" 1 0 None.
Definition dotted_row : list Tile := [dotted_left; dotted_right].

(** Two adjacent tiles; the match of the first carries the CENTER code. *)
Definition center_match : Match :=
  match_to (Some 1) (7 # 10)%Q [1]%Q [1]%Q [1]%Q [1]%Q.
Definition center_row : list Tile :=
  [tile_at "a.tif" 0 0 (Some [center_match]); tile_at "b.tif" 1 0 None].

(** Two adjacent tiles; the RIGHT match of the first carries the
    sentinel quality. *)
Definition sentinel_match : Match :=
  match_to (Some 4) (-1 # 1)%Q [1]%Q [1]%Q [1]%Q [1]%Q.
Definition sentinel_left : Tile := tile_at "a.tif" 0 0 (Some [sentinel_match]).

(** ** Locating the metafile *)

(** [get_meta_and_montage_files(self, rootdir)].  The arguments are the
    lists [glob.glob] returns for the patterns "_meta*.*" and
    "_montage*.*" under [rootdir].  Each loop keeps the last name; [meta]
    is bound by its loop only, so without a match the [return] raises
    [UnboundLocalError], here [None]; [montage] starts as [None]. *)
Definition get_meta_and_montage_files (meta_glob montage_glob : list string)
  : option (string * option string) :=
  let meta := fold_left (fun _ name => Some name) meta_glob None in
  let montage := fold_left (fun _ name => Some name) montage_glob None in
  match meta with
  | Some meta => Some (meta, montage)
  | None => None
  end.

(** The [try] block of [process] (lines 89-97).  [load path] is
    [json.load] on the file opened at [path], [None] when opening or
    parsing fails; a document that parses is taken to have the blocks and
    keys of [JsonData].  Whatever is raised inside the block is replaced
    by the [Exception] of line 96: the block yields no metafile. *)
Definition find_and_parse (meta_glob montage_glob : list string)
    (load : string -> option JsonData) : option JsonData :=
  match get_meta_and_montage_files meta_glob montage_glob with
  | Some (meta_file, montage_file) => load meta_file
  | None => None
  end.

(** [process] started on a directory with the given glob results and
    file contents. *)
Definition process_directory (open_w : string -> option Exc)
    (meta_glob montage_glob : list string)
    (load : string -> option JsonData) (args : Args) (fs : FileSystem)
  : FileSystem * result unit :=
  process open_w (find_and_parse meta_glob montage_glob load) args fs.

(** ** The batch script [minipipe.py] *)

(** [monbase.replace("/", "_").replace("-", "")[1:]] (line 83): the
    name of the render stack and of the collection. *)
Definition rndr_name (monbase : string) : string :=
  drop_chars 1 (replace "-" EmptyString (replace "/" "_" monbase)).

(** ** Vocabulary of the further properties *)

(** What one match record contributes to the samples when nothing is
    raised. *)
Definition match_samples (args : Args) (group : string) (tile : Tile) (m : Match)
  : list Sample :=
  if is_no_match (match_quality m) then []
  else match tile_from_tile args tile (position m) with
       | inr (Some n) => [correspondence group tile n m]
       | _ => []
       end.

(** What one tile contributes: its records in the order stored. *)
Definition tile_samples (args : Args) (group : string) (tile : Tile) : list Sample :=
  match matcher tile with
  | Some ms => flat_map (match_samples args group tile) ms
  | None => []
  end.

(** The resolver raises on match [m] of [tile]. *)
Definition raising_match (args : Args) (tile : Tile) (m : Match) : Prop :=
  is_no_match (match_quality m) = false /\
  exists e, tile_from_tile args tile (position m) = inl e.



(** The raster positions of the tiles, in order. *)
Definition raster_positions (tiles : list Tile) : list (Z * Z) :=
  map (fun tile => raster_pos (img_meta tile)) tiles.

(** The number of match records of the tiles. *)
Definition match_records (tiles : list Tile) : nat :=
  list_sum (map (fun tile => match matcher tile with
                             | Some ms => length ms
                             | None => O
                             end) tiles).

(** A 2 x 2 grid; every tile has one RIGHT match of three points. *)
Definition square_match : Match :=
  match_to (Some 4) (9 # 10)%Q [1; 2; 3]%Q [4; 5; 6]%Q [7; 8; 9]%Q [1; 1; 1]%Q.
Definition square_00 : Tile := tile_at "t00.tif" 0 0 (Some [square_match]).
Definition square_10 : Tile := tile_at "t10.tif" 1 0 (Some [square_match]).
Definition square_01 : Tile := tile_at "t01.tif" 0 1 (Some [square_match]).
Definition square_11 : Tile := tile_at "t11.tif" 1 1 (Some [square_match]).
Definition square_grid : list Tile := [square_00; square_10; square_01; square_11].

(** A match whose position is JSON null. *)
Definition null_match : Match :=
  match_to None (9 # 10)%Q [1]%Q [2]%Q [3]%Q [4]%Q.
Definition null_tile : Tile := tile_at "n.tif" 0 0 (Some [null_match]).

(** * Properties *)

(** ** The error monad and loops *)

Lemma bind_inr {A B} (m : result A) (k : A -> result B) (b : B) :
  bind m k = inr b -> exists a, m = inr a /\ k a = inr b.
Proof. destruct m as [e|a]; simpl; [discriminate | eauto]. Qed.

Lemma bind_inl {A B} (m : result A) (k : A -> result B) (e : Exc) :
  bind m k = inl e -> m = inl e \/ exists a, m = inr a /\ k a = inl e.
Proof. destruct m as [e'|a]; simpl; [left; congruence | eauto]. Qed.

(** A property of the loop state that every successful iteration keeps
    holds when the loop ends normally. *)
Lemma for_each_invariant {S A} (I : S -> Prop) (body : S -> A -> result S) (l : list A) :
  (forall s a s', In a l -> I s -> body s a = inr s' -> I s') ->
  forall s s', I s -> for_each body s l = inr s' -> I s'.
Proof.
  induction l as [|a l IH]; simpl; intros Hstep s s' Hs Hrun.
  - unfold ret in Hrun. congruence.
  - apply bind_inr in Hrun as (s1 & H1 & H2).
    apply IH with s1; eauto.
Qed.

(** Every exception leaving a loop was raised by its body. *)
Lemma for_each_raised {S A} (P : Exc -> Prop) (body : S -> A -> result S) (l : list A) :
  (forall s a e, In a l -> body s a = inl e -> P e) ->
  forall s e, for_each body s l = inl e -> P e.
Proof.
  induction l as [|a l IH]; simpl; intros Hbody s e Hrun.
  - discriminate.
  - apply bind_inl in Hrun as [H|(s1 & H1 & H2)]; eauto.
Qed.

(** An element on which the body raises from every state aborts the loop. *)
Lemma for_each_aborts {S A} (body : S -> A -> result S) (l : list A) (a : A) :
  In a l -> (forall s, exists e, body s a = inl e) ->
  forall s, exists e, for_each body s l = inl e.
Proof.
  induction l as [|b l IH]; simpl; intros Hin Hraise s; [contradiction|].
  destruct (body s b) as [e|s1] eqn:Hb; simpl; [eauto|].
  destruct Hin as [->|Hin]; [|eauto].
  destruct (Hraise s) as [e He]. congruence.
Qed.

Lemma for_each_app {S A} (body : S -> A -> result S) (l1 l2 : list A) (s : S) :
  for_each body s (l1 ++ l2)%list
  = let* s' := for_each body s l1 in for_each body s' l2.
Proof.
  revert s. induction l1 as [|a l1 IH]; simpl; intros s; [reflexivity|].
  destruct (body s a) as [e|s1]; simpl; auto.
Qed.

(** ** Keys of the raster-position dictionary *)

Lemma str_inj (a b : Z) : str a = str b -> a = b.
Proof.
  unfold str. intros H.
  apply (f_equal NilEmpty.int_of_string) in H.
  rewrite !NilEmpty.isi in H. injection H as H.
  rewrite <- (DecimalZ.of_to a), <- (DecimalZ.of_to b). now rewrite H.
Qed.

Lemma string_of_uint_no_sep (d : Decimal.uint) :
  ~ In "_"%char (list_ascii_of_string (NilEmpty.string_of_uint d)).
Proof.
  induction d; simpl; intros H; try contradiction;
    destruct H as [H|H]; try discriminate; auto.
Qed.

Lemma str_no_sep (n : Z) : ~ In "_"%char (list_ascii_of_string (str n)).
Proof.
  unfold str. destruct (Z.to_int n) as [d|d]; simpl.
  - apply string_of_uint_no_sep.
  - intros [H|H]; [discriminate|]. now apply string_of_uint_no_sep in H.
Qed.

Lemma append_sep_inj (a a' b b' : string) :
  ~ In "_"%char (list_ascii_of_string a) ->
  ~ In "_"%char (list_ascii_of_string a') ->
  String.append a (String "_" b) = String.append a' (String "_" b') ->
  a = a' /\ b = b'.
Proof.
  revert a'. induction a as [|c a IH]; intros [|c' a']; simpl; intros Ha Ha' H.
  - injection H as H. auto.
  - injection H as Hc H. exfalso. apply Ha'. left. now symmetry.
  - injection H as Hc H. exfalso. apply Ha. now left.
  - injection H as Hc H. destruct (IH a') as [-> ->]; auto.
    now subst.
Qed.

(** Distinct grid cells have distinct keys. *)
Lemma raster_key_inj (c r c' r' : Z) :
  raster_key c r = raster_key c' r' -> c = c' /\ r = r'.
Proof.
  unfold raster_key. simpl String.append. intros H.
  apply append_sep_inj in H as [Hc Hr]; auto using str_no_sep.
  split; now apply str_inj.
Qed.

(** ** The grid index *)

Lemma occupant_In (tiles : list Tile) (col row : Z) (t : Tile) :
  occupant tiles col row = Some t ->
  In t tiles /\ raster_pos (img_meta t) = (col, row).
Proof.
  induction tiles as [|t0 ts IH]; simpl; [discriminate|].
  destruct (occupant ts col row) as [t'|].
  - intros [= ->]. destruct IH as [? ?]; auto.
  - case_decide; [|discriminate]. intros [= ->]. auto.
Qed.

Lemma occupant_None (tiles : list Tile) (col row : Z) :
  occupant tiles col row = None <->
  forall t, In t tiles -> raster_pos (img_meta t) <> (col, row).
Proof.
  induction tiles as [|t0 ts IH]; simpl.
  - split; [intros _ t [] | reflexivity].
  - destruct (occupant ts col row) as [t'|].
    + split; [discriminate|]. intros H. exfalso.
      assert (Some t' = None) as Hn by (apply IH; intros t Ht; apply H; auto).
      discriminate.
    + case_decide as Hd.
      * split; [discriminate|]. intros H. exfalso. exact (H t0 (or_introl eq_refl) Hd).
      * split; [|reflexivity]. intros _ t [<-|Ht]; [assumption|].
        now apply IH.
Qed.

Lemma index_lookup (tiles : list Tile) (m0 : gmap string Tile) (col row : Z) :
  fold_left
    (fun lookup tile =>
       let '(c, r) := raster_pos (img_meta tile) in
       <[raster_key c r := tile]> lookup) tiles m0 !! raster_key col row
  = match occupant tiles col row with
    | Some t => Some t
    | None => m0 !! raster_key col row
    end.
Proof.
  revert m0. induction tiles as [|t ts IH]; simpl; intros m0; [reflexivity|].
  rewrite IH. destruct (occupant ts col row); [reflexivity|].
  destruct (raster_pos (img_meta t)) as [c r].
  case_decide as Hd.
  - injection Hd as -> ->. apply lookup_insert_eq.
  - apply lookup_insert_ne. intros Hk. apply raster_key_inj in Hk as [-> ->]. auto.
Qed.

(** After [create_raster_pos_dict] the dictionary holds exactly the
    occupants of the grid cells. *)
Lemma create_raster_pos_dict_lookup (args : Args) (col row : Z) :
  raster_pos_lookup (create_raster_pos_dict args) !! raster_key col row
  = occupant (data args) col row.
Proof.
  unfold create_raster_pos_dict. simpl. rewrite index_lookup.
  destruct (occupant (data args) col row); [reflexivity | apply lookup_empty].
Qed.

Lemma session_args_lookup (args : Args) (tiles : list Tile) (rows cols col row : Z) :
  raster_pos_lookup (session_args args tiles rows cols) !! raster_key col row
  = occupant tiles col row.
Proof. unfold session_args. now rewrite create_raster_pos_dict_lookup. Qed.

Lemma session_args_tcols (args : Args) (tiles : list Tile) (rows cols : Z) :
  tcols (session_args args tiles rows cols) = cols.
Proof. reflexivity. Qed.

(** [max] returns an element of the list that bounds all the others. *)
Lemma max_spec (l : list Z) (m : Z) :
  max l = inr m -> In m l /\ forall x, In x l -> x <= m.
Proof.
  destruct l as [|x l]; simpl; [discriminate|]. intros [= <-].
  revert x. induction l as [|y l IH]; simpl; intros x.
  - split; [auto|]. intros z [<-|[]]. lia.
  - destruct (IH (Z.max x y)) as [Hin Hle]. split.
    + destruct Hin as [Hin|Hin]; [|auto].
      rewrite <- Hin. destruct (Z.max_spec x y) as [[_ ->]|[_ ->]]; auto.
    + pose proof (Hle (Z.max x y) (or_introl eq_refl)) as Hm.
      intros z [Hz|[Hz|Hz]]; [lia | lia | apply Hle; now right].
Qed.

(** ** The resolver, case by case *)

Section Resolver.
Variable args : Args.
Variables col row : Z.

Lemma resolve_LEFT :
  tile_from_raster_pos args col row (Some (Edge_value LEFT)) =
  if 0 <? col
  then let* t := subscript (raster_pos_lookup args) (raster_key (col - 1) row) in
       ret (Some t)
  else ret None.
Proof. reflexivity. Qed.

Lemma resolve_RIGHT :
  tile_from_raster_pos args col row (Some (Edge_value RIGHT)) =
  if col <? tcols args
  then let* t := subscript (raster_pos_lookup args) (raster_key (col + 1) row) in
       ret (Some t)
  else ret None.
Proof. reflexivity. Qed.

Lemma resolve_TOP :
  tile_from_raster_pos args col row (Some (Edge_value TOP)) =
  if 0 <? row
  then let* t := subscript (raster_pos_lookup args) (raster_key col (row - 1)) in
       ret (Some t)
  else ret None.
Proof. reflexivity. Qed.

(** In a neighbour direction whose guard passes, the result is the
    subscript of the dictionary at the target cell. *)
Lemma resolve_guarded (e : Edge) :
  is_neighbor_direction e = true ->
  boundary_check args col row e = true ->
  tile_from_raster_pos args col row (Some (Edge_value e)) =
  let '(c, r) := target_cell col row e in
  let* t := subscript (raster_pos_lookup args) (raster_key c r) in ret (Some t).
Proof.
  destruct e; intros Hn Hb; try discriminate Hn; cbn in Hb.
  - rewrite resolve_LEFT, Hb. reflexivity.
  - rewrite resolve_TOP, Hb. reflexivity.
  - rewrite resolve_RIGHT, Hb. reflexivity.
Qed.

(** An integer code that names no neighbour direction falls through
    every branch. *)
Lemma resolve_other (d : Z) :
  d <> Edge_value LEFT -> d <> Edge_value TOP -> d <> Edge_value RIGHT ->
  tile_from_raster_pos args col row (Some d) = inr None.
Proof.
  simpl. intros HL HT HR. unfold tile_from_raster_pos, direction_is. simpl.
  destruct (Z.eqb_spec d 2); [contradiction|].
  destruct (Z.eqb_spec d 4); [contradiction|].
  destruct (Z.eqb_spec d 3); [contradiction|].
  reflexivity.
Qed.

(** The resolver raises nothing but [KeyError]. *)
Lemma resolve_raises (direction : option Z) (e : Exc) :
  tile_from_raster_pos args col row direction = inl e -> exists k, e = KeyError k.
Proof.
  unfold tile_from_raster_pos, subscript.
  repeat match goal with
         | |- context [match ?x with _ => _ end] => destruct x; simpl
         end; intros H; try discriminate; injection H as <-; eauto.
Qed.

(** A resolved neighbour is stored in the dictionary. *)
Lemma resolve_stored (direction : option Z) (n : Tile) :
  tile_from_raster_pos args col row direction = inr (Some n) ->
  exists c r, raster_pos_lookup args !! raster_key c r = Some n.
Proof.
  unfold tile_from_raster_pos, subscript.
  repeat match goal with
         | |- context [match ?x with _ => _ end] => destruct x eqn:?; simpl
         end; intros H; try discriminate; injection H as <-; eauto.
Qed.
End Resolver.

(** ** The body of the match loop, case by case *)

Section MatchBody.
Variable args : Args.
Variable tile : Tile.
Variables pId_ group : string.
Variable samples : list Sample.
Variable m : Match.

Lemma match_body_sentinel :
  is_no_match (match_quality m) = true ->
  match_body args tile pId_ group group samples m = inr samples.
Proof. unfold match_body. now intros ->. Qed.

Lemma match_body_unresolved :
  tile_from_tile args tile (position m) = inr None ->
  match_body args tile pId_ group group samples m = inr samples.
Proof.
  unfold match_body. intros ->. simpl. now destruct (is_no_match _).
Qed.

Lemma match_body_raises (e : Exc) :
  is_no_match (match_quality m) = false ->
  tile_from_tile args tile (position m) = inl e ->
  match_body args tile pId_ group group samples m = inl e.
Proof. unfold match_body. now intros -> ->. Qed.

Lemma match_body_resolved (n : Tile) :
  is_no_match (match_quality m) = false ->
  tile_from_tile args tile (position m) = inr (Some n) ->
  pId_ = replace ".tif" EmptyString (img_path tile) ->
  match_body args tile pId_ group group samples m
  = inr (samples ++ [correspondence group tile n m])%list.
Proof.
  unfold match_body. intros -> -> ->. simpl. unfold correspondence.
  now rewrite length_replicate.
Qed.
End MatchBody.

(** ** [float] *)

Lemma float_raises (x : Q) (e : Exc) :
  float x = inl e -> exists msg, e = OverflowError msg.
Proof.
  unfold float. destruct (Qden (Qred x) =? 1)%positive; [|discriminate].
  destruct (Z.abs _ <? 2 ^ 1024); [discriminate|]. intros [= <-]. eauto.
Qed.

Lemma float_value_eq (x y : Q) : float x = inr y -> float_value x = y.
Proof. unfold float_value. now intros ->. Qed.

(** ** The loops of [process] *)

Section Loops.
Variable args : Args.
Variable group : string.

Lemma match_body_raises_KeyError tile pId_ samples m e :
  match_body args tile pId_ group group samples m = inl e -> exists k, e = KeyError k.
Proof.
  unfold match_body. destruct (is_no_match _); [discriminate|].
  unfold tile_from_tile. destruct (raster_pos (img_meta tile)) as [col row].
  destruct (tile_from_raster_pos args col row (position m)) as [e'|[n|]] eqn:Hr;
    simpl; try discriminate.
  intros [= <-]. eauto using resolve_raises.
Qed.

(** The body of the tile loop once [float] has accepted the stage
    position. *)
Lemma tile_body_converts samples tilespecs tile :
  stage_converts tile ->
  tile_body args group group (samples, tilespecs) tile
  = match matcher tile with
    | Some ms =>
        let* samples' :=
          for_each (match_body args tile (replace ".tif" EmptyString (img_path tile))
                               group group) samples ms in
        ret (samples', (tilespecs ++ [tilespec_of tile])%list)
    | None => ret (samples, (tilespecs ++ [tilespec_of tile])%list)
    end.
Proof.
  intros [[x Hx] [y Hy]]. unfold tile_body, tilespec_of.
  rewrite (float_value_eq _ _ Hx), (float_value_eq _ _ Hy), Hx, Hy. reflexivity.
Qed.

Lemma tile_body_inr samples tilespecs tile samples' tilespecs' :
  tile_body args group group (samples, tilespecs) tile = inr (samples', tilespecs') ->
  stage_converts tile /\
  tilespecs' = (tilespecs ++ [tilespec_of tile])%list /\
  match matcher tile with
  | Some ms =>
      for_each (match_body args tile (replace ".tif" EmptyString (img_path tile))
                           group group) samples ms = inr samples'
  | None => samples' = samples
  end.
Proof.
  intros H.
  assert (stage_converts tile) as Hconv.
  { unfold tile_body in H.
    apply bind_inr in H as (x & Hx & H). apply bind_inr in H as (y & Hy & _).
    split; eauto. }
  split; [exact Hconv|]. rewrite (tile_body_converts _ _ _ Hconv) in H.
  destruct (matcher tile) as [ms|].
  - apply bind_inr in H as (s1 & Hloop & [= <- <-]). auto.
  - injection H as <- <-. auto.
Qed.

Lemma tile_body_inl st tile e :
  tile_body args group group st tile = inl e ->
  (exists msg, e = OverflowError msg) \/
  (stage_converts tile /\
   exists ms samples,
     matcher tile = Some ms /\
     for_each (match_body args tile (replace ".tif" EmptyString (img_path tile))
                          group group) samples ms = inl e).
Proof.
  destruct st as [samples tilespecs]. unfold tile_body. intros H.
  apply bind_inl in H as [H|(x & Hx & H)]; [left; eauto using float_raises|].
  apply bind_inl in H as [H|(y & Hy & H)]; [left; eauto using float_raises|].
  right. split; [split; eauto|].
  destruct (matcher tile) as [ms|]; [|discriminate].
  apply bind_inl in H as [H|(s1 & _ & H)]; [|discriminate]. eauto.
Qed.

(** The tile loop raises nothing but [KeyError] and [OverflowError], and
    only [KeyError] when [float] accepts every stage position. *)
Lemma tile_loop_raises tiles st e :
  for_each (tile_body args group group) st tiles = inl e ->
  ((exists k, e = KeyError k) \/ (exists msg, e = OverflowError msg)) /\
  ((forall tile, In tile tiles -> stage_converts tile) -> exists k, e = KeyError k).
Proof.
  revert st e.
  apply (for_each_raised
           (fun e => ((exists k, e = KeyError k) \/ (exists msg, e = OverflowError msg)) /\
                     ((forall tile, In tile tiles -> stage_converts tile) ->
                      exists k, e = KeyError k))).
  intros st tile e Htile H.
  destruct (tile_body_inl _ _ _ H) as [[msg ->]|(_ & ms & s & _ & Hloop)].
  - split; [right; eauto|]. intros Hall.
    destruct (Hall tile Htile) as [[x Hx] [y Hy]].
    destruct st as [samples tilespecs]. unfold tile_body in H.
    rewrite Hx, Hy in H. simpl in H.
    destruct (matcher tile) as [ms|]; [|discriminate].
    apply bind_inl in H as [H|(s1 & _ & H)]; [|discriminate].
    revert H. apply (for_each_raised (fun e => exists k, e = KeyError k)).
    intros s a e' _. apply match_body_raises_KeyError.
  - assert (exists k, e = KeyError k) as Hk; [|split; [left|]; auto].
    revert Hloop. apply (for_each_raised (fun e => exists k, e = KeyError k)).
    intros s' a e' _. apply match_body_raises_KeyError.
Qed.

Lemma match_loop_emitted tiles tile ms samples samples' :
  In tile tiles -> matcher tile = Some ms ->
  (forall c, In c samples -> emitted_from args group tiles c) ->
  for_each (match_body args tile (replace ".tif" EmptyString (img_path tile)) group group)
           samples ms = inr samples' ->
  forall c, In c samples' -> emitted_from args group tiles c.
Proof.
  intros Htile Hms Hinit Hrun. revert Hinit Hrun.
  apply (for_each_invariant
           (fun s => forall c, In c s -> emitted_from args group tiles c)).
  intros s m s' Hm Hs Hbody.
  destruct (is_no_match (match_quality m)) eqn:Hq.
  { rewrite match_body_sentinel in Hbody by assumption. now injection Hbody as <-. }
  destruct (tile_from_tile args tile (position m)) as [e|[n|]] eqn:Hr.
  - rewrite (match_body_raises _ _ _ _ _ _ e) in Hbody by assumption. discriminate.
  - rewrite (match_body_resolved _ _ _ _ _ _ n) in Hbody by auto.
    injection Hbody as <-. intros c Hc.
    apply in_app_or in Hc as [Hc|[<-|[]]]; [auto|].
    exists tile, ms, m, n. auto 10.
  - rewrite match_body_unresolved in Hbody by assumption. now injection Hbody as <-.
Qed.

Lemma tile_loop_emitted tiles samples tilespecs :
  for_each (tile_body args group group) ([], []) tiles = inr (samples, tilespecs) ->
  forall c, In c samples -> emitted_from args group tiles c.
Proof.
  apply (for_each_invariant
           (fun st => forall c, In c (fst st) -> emitted_from args group tiles c)).
  - intros [s ts] tile [s' ts'] Htile Hs Hbody.
    apply tile_body_inr in Hbody as (_ & _ & Hloop). simpl.
    destruct (matcher tile) as [ms|] eqn:Hms.
    + eapply match_loop_emitted; eauto.
    + now subst s'.
  - intros c [].
Qed.

(** A record that makes the match loop raise aborts the tile loop. *)
Lemma tile_loop_aborts tiles tile ms m :
  In tile tiles -> matcher tile = Some ms -> In m ms ->
  (forall pId_ samples, exists e,
      match_body args tile pId_ group group samples m = inl e) ->
  forall st, exists e, for_each (tile_body args group group) st tiles = inl e.
Proof.
  intros Htile Hms Hm Hraise.
  apply (for_each_aborts (tile_body args group group) tiles tile Htile).
  intros [samples tilespecs].
  destruct (tile_body args group group (samples, tilespecs) tile) as [e|[s' ts']] eqn:Hbody;
    [eauto|].
  apply tile_body_inr in Hbody as (_ & _ & Hloop). rewrite Hms in Hloop.
  destruct (for_each_aborts
              (match_body args tile (replace ".tif" EmptyString (img_path tile)) group group)
              ms m Hm (Hraise _) samples) as [e He].
  congruence.
Qed.

(** The tilespecs are built for every tile, in order. *)
Lemma tile_loop_tilespecs tiles samples tilespecs samples' tilespecs' :
  for_each (tile_body args group group) (samples, tilespecs) tiles
    = inr (samples', tilespecs') ->
  tilespecs' = (tilespecs ++ map tilespec_of tiles)%list.
Proof.
  revert samples tilespecs.
  induction tiles as [|tile tiles IH]; simpl; intros samples tilespecs H.
  - injection H as _ <-. now rewrite app_nil_r.
  - apply bind_inr in H as ([s1 ts1] & Hbody & Hrest).
    apply IH in Hrest as ->.
    apply tile_body_inr in Hbody as (_ & -> & _).
    now rewrite <- app_assoc.
Qed.

(** A tile loop that ends normally converted every stage position. *)
Lemma tile_loop_converts tiles st st' :
  for_each (tile_body args group group) st tiles = inr st' ->
  forall tile, In tile tiles -> stage_converts tile.
Proof.
  revert st. induction tiles as [|t tiles IH]; simpl; intros st H tile Hin; [contradiction|].
  apply bind_inr in H as ([s1 ts1] & Hbody & Hrest).
  destruct Hin as [<-|Hin]; [|eauto].
  destruct st as [s ts]. now apply tile_body_inr in Hbody as (Hconv & _).
Qed.
End Loops.

(** [process] on a metafile that was found and parsed: the grid bounds,
    the tile loop over the indexed grid, the calibration, then the
    write. *)
Lemma process_unfold (open_w : string -> option Exc) (md : Metadata)
    (tiles : list Tile) (args : Args) (fs : FileSystem) :
  process open_w (Some (md, tiles)) args fs =
  match max (raster_rows tiles) with
  | inl e => (fs, inl e)
  | inr rows =>
      match max (raster_cols tiles) with
      | inl e => (fs, inl e)
      | inr cols =>
          match for_each (tile_body (session_args args tiles rows cols)
                                    (session_id md) (session_id md)) ([], []) tiles with
          | inl e => (fs, inl e)
          | inr (samples, _) =>
              match float (nm_per_pix (calibration_highmag md)) with
              | inl e => (fs, inl e)
              | inr _ =>
                  match float (angle (calibration_highmag md)) with
                  | inl e => (fs, inl e)
                  | inr _ =>
                      match open_w (output_file args) with
                      | Some e => (fs, inl e)
                      | None => (<[output_file args := OutputList samples]> fs, inr tt)
                      end
                  end
              end
          end
      end
  end.
Proof.
  unfold process, raster_rows, raster_cols. simpl.
  destruct (max _) as [e|rows]; simpl; [reflexivity|].
  destruct (max _) as [e|cols]; simpl; [reflexivity|].
  fold (session_args args tiles rows cols).
  destruct (for_each _ _ _) as [e|[samples tilespecs]]; simpl; [reflexivity|].
  destruct (float (nm_per_pix _)); simpl; [reflexivity|].
  destruct (float (angle _)); reflexivity.
Qed.

(** A successful run wrote the samples of the tile loop. *)
Lemma process_success (open_w : string -> option Exc) (md : Metadata)
    (tiles : list Tile) (args : Args) (fs fs' : FileSystem) :
  process open_w (Some (md, tiles)) args fs = (fs', inr tt) ->
  exists rows cols samples tilespecs,
    max (raster_rows tiles) = inr rows /\
    max (raster_cols tiles) = inr cols /\
    for_each (tile_body (session_args args tiles rows cols)
                        (session_id md) (session_id md)) ([], []) tiles
      = inr (samples, tilespecs) /\
    fs' = <[output_file args := OutputList samples]> fs.
Proof.
  rewrite process_unfold.
  destruct (max (raster_rows tiles)) as [e|rows]; [discriminate|].
  destruct (max (raster_cols tiles)) as [e|cols]; [discriminate|].
  destruct (for_each _ _ _) as [e|[samples tilespecs]] eqn:Hloop; [discriminate|].
  destruct (float (nm_per_pix _)); [discriminate|].
  destruct (float (angle _)); [discriminate|].
  destruct (open_w _); [discriminate|].
  intros [= <-]. exists rows, cols, samples, tilespecs. auto.
Qed.

(** A successful run converted the calibration and every stage position
    and opened the output file. *)
Lemma process_success_env (open_w : string -> option Exc) (md : Metadata)
    (tiles : list Tile) (args : Args) (fs fs' : FileSystem) :
  process open_w (Some (md, tiles)) args fs = (fs', inr tt) ->
  (forall tile, In tile tiles -> stage_converts tile) /\
  calibration_converts md /\
  open_w (output_file args) = None.
Proof.
  rewrite process_unfold.
  destruct (max (raster_rows tiles)) as [e|rows]; [discriminate|].
  destruct (max (raster_cols tiles)) as [e|cols]; [discriminate|].
  destruct (for_each _ _ _) as [e|[samples tilespecs]] eqn:Hloop; [discriminate|].
  destruct (float (nm_per_pix _)) eqn:Hnm; [discriminate|].
  destruct (float (angle _)) eqn:Han; [discriminate|].
  destruct (open_w _); [discriminate|]. intros _.
  split; [eapply tile_loop_converts; eauto|].
  split; [split; eauto | reflexivity].
Qed.

(** Whatever the resolver returns for a session is a tile of its data. *)
Lemma resolved_in_data (args : Args) (tiles : list Tile) (rows cols : Z)
    (tile : Tile) (direction : option Z) (n : Tile) :
  tile_from_tile (session_args args tiles rows cols) tile direction = inr (Some n) ->
  In n tiles.
Proof.
  unfold tile_from_tile. destruct (raster_pos (img_meta tile)) as [col row].
  intros H. apply resolve_stored in H as (c & r & H).
  rewrite session_args_lookup in H. now apply occupant_In in H.
Qed.

(** ** [replace] with the pattern ".tif" *)

Lemma occurs_cons (old : string) (c : ascii) (s : string) :
  occurs old (String c s) = false ->
  String.prefix old (String c s) = false /\ occurs old s = false.
Proof. simpl occurs. intros H. now apply orb_false_elim in H. Qed.

(** Without an occurrence of the pattern nothing is replaced. *)
Lemma replace_absent (old new s : string) :
  occurs old s = false -> replace old new s = s.
Proof.
  unfold replace. induction s as [|c s IH]; [reflexivity|].
  intros H. apply occurs_cons in H as [Hp Ho].
  cbn [replace_from]. rewrite Hp. f_equal. auto.
Qed.

Lemma prefix_empty (s : string) : String.prefix EmptyString s = true.
Proof. now destruct s. Qed.

Lemma append_nil (t : string) : String.append EmptyString t = t.
Proof. reflexivity. Qed.

Lemma append_cons (c : ascii) (s t : string) :
  String.append (String c s) t = String c (String.append s t).
Proof. reflexivity. Qed.

(** An occurrence of ".tif" that starts inside [s] lies inside [s]: it
    cannot run into a following ".tif". *)
Lemma prefix_tif_app (c : ascii) (s rest : string) :
  String.prefix ".tif" (String c s) = false ->
  String.prefix ".tif" (String c (String.append s (String.append ".tif" rest))) = false.
Proof.
  destruct s as [|c2 [|c3 [|c4 s]]];
    rewrite ?append_cons, ?append_nil; cbn [String.prefix];
    repeat match goal with
           | |- context [ascii_dec ?x ?y] =>
               destruct (ascii_dec x y); try discriminate; try subst
           end;
    intros; try congruence.
  match goal with
  | H : String.prefix EmptyString ?s = false |- _ => destruct s; discriminate H
  end.
Qed.

(** [replace] removes the leftmost occurrence and goes on after it. *)
Lemma replace_tif_app (a b : string) :
  occurs ".tif" a = false ->
  replace ".tif" EmptyString (String.append a (String.append ".tif" b))
  = String.append a (replace ".tif" EmptyString b).
Proof.
  unfold replace. induction a as [|c a IH].
  { intros _. rewrite !append_cons, !append_nil. cbn.
    now rewrite prefix_empty, append_nil. }
  intros H. apply occurs_cons in H as [Hp Ho].
  change (String.append (String c a) (String.append ".tif" b))
    with (String c (String.append a (String.append ".tif" b))).
  cbn [replace_from]. rewrite (prefix_tif_app c a b Hp).
  rewrite (append_cons c a). f_equal. auto.
Qed.

Lemma append_empty_r (s : string) : String.append s EmptyString = s.
Proof. induction s as [|c s IH]; [reflexivity|]. now rewrite append_cons, IH. Qed.

Lemma replace_tif_suffix (stem : string) :
  occurs ".tif" stem = false ->
  replace ".tif" EmptyString (String.append stem ".tif") = stem.
Proof.
  intros H. pose proof (replace_tif_app stem EmptyString H) as E.
  change (String.append ".tif" EmptyString) with ".tif" in E. rewrite E.
  change (replace ".tif" EmptyString EmptyString) with EmptyString. apply append_empty_r.
Qed.

(** * The claims *)

(** ** Sentinel quality *)

(** C5: a match record whose quality equals the sentinel -1 is skipped
    before the neighbour is resolved: the loop body returns the samples
    unchanged and raises nothing, whatever the namespace, the tile and the
    direction are (so also where the resolver would have raised or would
    have found a tile), and the match loop over a record list gives the
    same outcome with or without that record. *)
Theorem sentinel_match_skipped (args : Args) (tile : Tile)
    (pId_ pGroupId_ qGroupId_ : string) (samples : list Sample) (m : Match) :
  (match_quality m == -1 # 1)%Q ->
  match_body args tile pId_ pGroupId_ qGroupId_ samples m = inr samples /\
  forall before after s,
    for_each (match_body args tile pId_ pGroupId_ qGroupId_) s (before ++ m :: after)%list
    = for_each (match_body args tile pId_ pGroupId_ qGroupId_) s (before ++ after)%list.
Proof.
  intros Hq. apply Qeq_bool_iff in Hq.
  assert (forall s, match_body args tile pId_ pGroupId_ qGroupId_ s m = inr s) as Hskip.
  { intros s. unfold match_body, is_no_match. now rewrite Hq. }
  split; [apply Hskip|].
  intros before after s. rewrite !for_each_app.
  destruct (for_each _ s before) as [e|s1]; simpl; [reflexivity|].
  now rewrite Hskip.
Qed.

Lemma sentinel_match_skipped_witness :
  (match_quality sentinel_match == -1 # 1)%Q /\
  match_body (session_args example_args [sentinel_left; ragged_right] 0 1)
             sentinel_left "a" "20190215" "20190215" [] sentinel_match = inr [].
Proof.
  split; [reflexivity|].
  apply (sentinel_match_skipped
           (session_args example_args [sentinel_left; ragged_right] 0 1)
           sentinel_left "a" "20190215" "20190215" [] sentinel_match).
  reflexivity.
Defined.

(** ** Grid boundaries *)

(** C7: at column 0 the resolver returns none for LEFT and at row 0 it
    returns none for TOP, for a raster position and for a tile alike; and
    the result of a resolution is determined by the dictionary, the
    column bound, the position and the direction: two namespaces that
    agree on the dictionary and on [tcols] give the same result. *)
Theorem resolver_boundary_deterministic (args args' : Args) (col row : Z)
    (direction : option Z) :
  raster_pos_lookup args' = raster_pos_lookup args ->
  tcols args' = tcols args ->
  tile_from_raster_pos args 0 row (Some (Edge_value LEFT)) = inr None /\
  tile_from_raster_pos args col 0 (Some (Edge_value TOP)) = inr None /\
  (forall tile, fst (raster_pos (img_meta tile)) = 0 ->
                tile_from_tile args tile (Some (Edge_value LEFT)) = inr None) /\
  (forall tile, snd (raster_pos (img_meta tile)) = 0 ->
                tile_from_tile args tile (Some (Edge_value TOP)) = inr None) /\
  tile_from_raster_pos args' col row direction
  = tile_from_raster_pos args col row direction.
Proof.
  intros Hlookup Hcols. repeat split.
  - intros tile Hc. unfold tile_from_tile.
    destruct (raster_pos (img_meta tile)) as [c r]. simpl in Hc. now subst c.
  - intros tile Hr. unfold tile_from_tile.
    destruct (raster_pos (img_meta tile)) as [c r]. simpl in Hr. now subst r.
  - unfold tile_from_raster_pos. now rewrite Hlookup, Hcols.
Qed.

Lemma resolver_boundary_deterministic_witness :
  tile_from_raster_pos (session_args example_args ragged_row 7 1) 0 0 (Some 4)
  = tile_from_raster_pos (session_args example_args ragged_row 0 1) 0 0 (Some 4).
Proof.
  apply (resolver_boundary_deterministic
           (session_args example_args ragged_row 0 1)
           (session_args example_args ragged_row 7 1) 0 0 (Some 4));
    reflexivity.
Defined.

(** C6: with [tcols] the maximum column over all tiles of the session
    (some tile has it and every tile's column is at most [tcols],
    whatever its row), a tile in that column gets none for RIGHT and its
    RIGHT match leaves the samples unchanged; a tile in a column strictly
    below [tcols] gets, for RIGHT, the occupant of the cell
    (column + 1, row) when that cell is occupied. *)
Theorem right_boundary (args : Args) (tiles : list Tile) (rows cols : Z)
    (tile : Tile) (col row : Z) :
  max (raster_cols tiles) = inr cols ->
  raster_pos (img_meta tile) = (col, row) ->
  let args' := session_args args tiles rows cols in
  tcols args' = cols /\
  (exists t, In t tiles /\ fst (raster_pos (img_meta t)) = cols) /\
  (forall t, In t tiles -> fst (raster_pos (img_meta t)) <= cols) /\
  (col = cols ->
   tile_from_tile args' tile (Some (Edge_value RIGHT)) = inr None /\
   forall pId_ pGroupId_ qGroupId_ samples m,
     position m = Some (Edge_value RIGHT) ->
     match_body args' tile pId_ pGroupId_ qGroupId_ samples m = inr samples) /\
  (col < cols ->
   forall n, occupant tiles (col + 1) row = Some n ->
             tile_from_tile args' tile (Some (Edge_value RIGHT)) = inr (Some n)).
Proof.
  intros Hmax Hpos args'. split; [reflexivity|]. split; [|split; [|split]].
  - apply max_spec in Hmax as [Hin _]. unfold raster_cols in Hin.
    apply in_map_iff in Hin as (t & Ht & Hin). eauto.
  - intros t Ht. apply max_spec in Hmax as [_ Hle]. apply Hle.
    unfold raster_cols. now apply (in_map (fun t0 => fst (raster_pos (img_meta t0)))).
  - intros ->.
    assert (tile_from_tile args' tile (Some (Edge_value RIGHT)) = inr None) as Hnone.
    { unfold tile_from_tile. rewrite Hpos, resolve_RIGHT.
      subst args'. rewrite session_args_tcols, Z.ltb_irrefl. reflexivity. }
    split; [exact Hnone|].
    intros pId_ pGroupId_ qGroupId_ samples m Hm. unfold match_body.
    rewrite Hm, Hnone. simpl. now destruct (is_no_match _).
  - intros Hlt n Hocc. unfold tile_from_tile. rewrite Hpos, resolve_RIGHT.
    subst args'. rewrite session_args_tcols.
    destruct (Z.ltb_spec col cols) as [_|]; [|lia].
    unfold subscript. now rewrite session_args_lookup, Hocc.
Qed.

Lemma right_boundary_witness :
  tile_from_tile (session_args example_args ragged_row 0 1) ragged_right (Some 4)
  = inr None /\
  tile_from_tile (session_args example_args ragged_row 0 1) ragged_left (Some 4)
  = inr (Some ragged_right).
Proof.
  split.
  - apply (right_boundary example_args ragged_row 0 1 ragged_right 1 0);
      reflexivity.
  - apply (right_boundary example_args ragged_row 0 1 ragged_left 0 0);
      [reflexivity | reflexivity | lia | reflexivity].
Defined.

(** ** Directions that name no neighbour *)

Lemma other_direction_counterexample :
  tile_from_raster_pos (session_args example_args center_row 0 1) 0 0
                       (Some (Edge_value CENTER)) = inr None /\
  tile_from_raster_pos (session_args example_args center_row 0 1) 0 0
                       (Some (Edge_value INVALID)) = inr None /\
  process always_opens (Some (example_metadata, center_row)) example_args ∅
  = (<["test.json" := OutputList []]> ∅, inr tt).
Proof. repeat split; vm_compute; reflexivity. Qed.

(** C8 (amended): a direction code other than LEFT, TOP and RIGHT, such
    as CENTER or INVALID, is not an error: the resolver returns none
    without raising, and the extractor passes over a match that carries
    such a code. *)
Theorem other_direction_returns_none (args : Args) (col row d : Z) :
  d <> Edge_value LEFT -> d <> Edge_value TOP -> d <> Edge_value RIGHT ->
  tile_from_raster_pos args col row (Some d) = inr None /\
  forall tile pId_ pGroupId_ qGroupId_ samples m,
    position m = Some d ->
    match_body args tile pId_ pGroupId_ qGroupId_ samples m = inr samples.
Proof.
  intros HL HT HR. split; [now apply resolve_other|].
  intros tile pId_ pGroupId_ qGroupId_ samples m Hm.
  unfold match_body, tile_from_tile. rewrite Hm.
  destruct (raster_pos (img_meta tile)) as [c r].
  rewrite resolve_other by assumption. simpl. now destruct (is_no_match _).
Qed.

Lemma other_direction_returns_none_witness :
  tile_from_raster_pos (session_args example_args center_row 0 1) 0 0
                       (Some (Edge_value CENTER)) = inr None.
Proof.
  apply (other_direction_returns_none
           (session_args example_args center_row 0 1) 0 0 (Edge_value CENTER));
    discriminate.
Defined.

(** ** Empty data *)

(** C10: on an empty tile list the first [max] of the grid bounds is
    taken over an empty sequence and raises [ValueError]; [process] ends
    with that error and the file system is left as it was, so no
    collection file, empty or not, is written. *)
Theorem empty_data_raises (open_w : string -> option Exc)
    (md : Metadata) (args : Args) (fs : FileSystem) :
  max (raster_rows []) = inl (ValueError "max() arg is an empty sequence") /\
  process open_w (Some (md, [])) args fs
  = (fs, inl (ValueError "max() arg is an empty sequence")) /\
  forall path, fst (process open_w (Some (md, [])) args fs) !! path = fs !! path.
Proof.
  split; [reflexivity|].
  rewrite process_unfold. simpl. auto.
Qed.


(** ** Gaps in the grid *)

Lemma gap_raises_counterexample :
  boundary_check (session_args example_args gap_row 0 2) 0 0 RIGHT = true /\
  occupant gap_row 1 0 = None /\
  tile_from_tile (session_args example_args gap_row 0 2) gap_left
                 (Some (Edge_value RIGHT)) <> inr None /\
  tile_from_tile (session_args example_args gap_row 0 2) gap_left
                 (Some (Edge_value RIGHT)) = inl (KeyError "1_0") /\
  process always_opens (Some (example_metadata, gap_row)) example_args ∅
  = (∅, inl (KeyError "1_0")).
Proof.
  repeat split; try (vm_compute; reflexivity).
  vm_compute. discriminate.
Qed.

(** C1 (amended): for a tile and a direction among LEFT, TOP and RIGHT
    whose boundary check passes while no tile occupies the target cell,
    the resolver raises [KeyError] with the key of that cell; unless the
    match carries the sentinel quality, the loop body raises the same
    error and the run cannot succeed: [process] ends with an exception and
    writes no file.  The exception is a [KeyError], or the
    [OverflowError] of [float] on a stage position met earlier in the
    loop; it is a [KeyError] when [float] accepts the stage positions of
    all tiles. *)
Theorem gap_raises_KeyError (open_w : string -> option Exc) (md : Metadata)
    (args : Args) (fs : FileSystem)
    (tiles : list Tile) (rows cols : Z) (tile : Tile) (ms : list Match) (m : Match)
    (e : Edge) (col row c r : Z) :
  max (raster_rows tiles) = inr rows ->
  max (raster_cols tiles) = inr cols ->
  In tile tiles -> matcher tile = Some ms -> In m ms ->
  raster_pos (img_meta tile) = (col, row) ->
  position m = Some (Edge_value e) ->
  is_neighbor_direction e = true ->
  boundary_check (session_args args tiles rows cols) col row e = true ->
  target_cell col row e = (c, r) ->
  (forall t, In t tiles -> raster_pos (img_meta t) <> (c, r)) ->
  tile_from_tile (session_args args tiles rows cols) tile (position m)
  = inl (KeyError (raster_key c r)) /\
  (is_no_match (match_quality m) = false ->
   (forall pId_ pGroupId_ qGroupId_ samples,
       match_body (session_args args tiles rows cols) tile
                  pId_ pGroupId_ qGroupId_ samples m
       = inl (KeyError (raster_key c r))) /\
   (exists err,
       process open_w (Some (md, tiles)) args fs = (fs, inl err) /\
       ((exists k, err = KeyError k) \/ (exists msg, err = OverflowError msg))) /\
   ((forall t, In t tiles -> stage_converts t) ->
    exists k, process open_w (Some (md, tiles)) args fs = (fs, inl (KeyError k)))).
Proof.
  intros Hrows Hcols Htile Hms Hm Hpos Hdir He Hb Ht Hocc.
  apply occupant_None in Hocc.
  assert (tile_from_tile (session_args args tiles rows cols) tile (position m)
          = inl (KeyError (raster_key c r))) as Hres.
  { unfold tile_from_tile. rewrite Hpos, Hdir, resolve_guarded, Ht by assumption.
    unfold subscript. now rewrite session_args_lookup, Hocc. }
  split; [exact Hres|]. intros Hq.
  assert (forall pId_ pGroupId_ qGroupId_ samples,
             match_body (session_args args tiles rows cols) tile
                        pId_ pGroupId_ qGroupId_ samples m
             = inl (KeyError (raster_key c r))) as Hbody.
  { intros. unfold match_body. now rewrite Hq, Hres. }
  split; [exact Hbody|].
  rewrite process_unfold, Hrows, Hcols.
  destruct (tile_loop_aborts (session_args args tiles rows cols) (session_id md)
                             tiles tile ms m Htile Hms Hm)
    with (st := ([] : list Sample, [] : list TileSpec)) as [err Herr].
  { intros pId_ samples. rewrite Hbody. eauto. }
  rewrite Herr. apply tile_loop_raises in Herr as [Hkind Hkey]. split.
  - exists err. auto.
  - intros Hconv. destruct (Hkey Hconv) as [k ->]. eauto.
Qed.

Lemma gap_raises_KeyError_witness :
  tile_from_tile (session_args example_args gap_row 0 2) gap_left (position gap_match)
  = inl (KeyError (raster_key 1 0)).
Proof.
  apply (gap_raises_KeyError always_opens example_metadata example_args ∅ gap_row 0 2
                             gap_left [gap_match] gap_match RIGHT 0 0 1 0);
    try reflexivity; try (now left).
  intros t [<-|[<-|[]]]; discriminate.
Defined.

(** ** Coordinate arrays of unequal lengths *)

Lemma ragged_match_emitted_counterexample :
  length (pX ragged_match) <> length (pY ragged_match) /\
  process always_opens (Some (example_metadata, ragged_row)) example_args ∅
  = (<["test.json" :=
         OutputList [correspondence "20190215" ragged_left ragged_right ragged_match]]> ∅,
     inr tt) /\
  matches_p (matches (correspondence "20190215" ragged_left ragged_right ragged_match))
  = ([1; 2]%Q, [3]%Q).
Proof.
  split; [discriminate|]. split; [vm_compute; reflexivity | reflexivity].
Qed.

(** C2 (amended): a match whose pX and pY have unequal lengths, whose
    quality is not the sentinel and whose neighbour resolves, raises
    nothing: the loop body appends a correspondence that carries pX and
    pY as they are, so its p.x and p.y differ in length. *)
Theorem mismatched_lengths_emitted (args : Args) (tile : Tile) (group : string)
    (samples : list Sample) (m : Match) (n : Tile) :
  length (pX m) <> length (pY m) ->
  is_no_match (match_quality m) = false ->
  tile_from_tile args tile (position m) = inr (Some n) ->
  exists c,
    match_body args tile (replace ".tif" EmptyString (img_path tile)) group group samples m
    = inr (samples ++ [c])%list /\
    matches_p (matches c) = (pX m, pY m) /\
    matches_q (matches c) = (qX m, qY m) /\
    length (fst (matches_p (matches c))) <> length (snd (matches_p (matches c))).
Proof.
  intros Hlen Hq Hres. exists (correspondence group tile n m).
  split; [now apply match_body_resolved|]. simpl. auto.
Qed.

Lemma mismatched_lengths_emitted_witness :
  exists c,
    match_body (session_args example_args ragged_row 0 1) ragged_left
               (replace ".tif" EmptyString (img_path ragged_left)) "20190215" "20190215"
               [] ragged_match
    = inr ([] ++ [c])%list /\
    matches_p (matches c) = (pX ragged_match, pY ragged_match) /\
    matches_q (matches c) = (qX ragged_match, qY ragged_match) /\
    length (fst (matches_p (matches c))) <> length (snd (matches_p (matches c))).
Proof.
  apply (mismatched_lengths_emitted
           (session_args example_args ragged_row 0 1) ragged_left "20190215"
           [] ragged_match ragged_right).
  - simpl. lia.
  - reflexivity.
  - reflexivity.
Defined.

Lemma ragged_sample_counterexample :
  exists samples c,
    process always_opens (Some (example_metadata, ragged_row)) example_args ∅
    = (<["test.json" := OutputList samples]> ∅, inr tt) /\
    In c samples /\ ~ well_shaped c.
Proof.
  exists [correspondence "20190215" ragged_left ragged_right ragged_match],
         (correspondence "20190215" ragged_left ragged_right ragged_match).
  split; [vm_compute; reflexivity|]. split; [now left|].
  unfold well_shaped. simpl. intros (_ & H & _). discriminate H.
Qed.

(** Every sample a successful run wrote was appended for a match of a
    tile of the data. *)
Lemma process_written_emitted (open_w : string -> option Exc)
    (md : Metadata) (tiles : list Tile) (args : Args)
    (fs fs' : FileSystem) (samples : list Sample) (c : Sample) :
  process open_w (Some (md, tiles)) args fs = (fs', inr tt) ->
  fs' !! output_file args = Some (OutputList samples) ->
  In c samples ->
  exists rows cols,
    emitted_from (session_args args tiles rows cols) (session_id md) tiles c.
Proof.
  intros Hrun Hfile Hc.
  apply process_success in Hrun as (rows & cols & samples' & tilespecs & _ & _ & Hloop & ->).
  rewrite lookup_insert_eq in Hfile. injection Hfile as ->.
  exists rows, cols. eapply tile_loop_emitted; eauto.
Qed.

(** C3 (amended): for every correspondence a run writes, for arbitrary
    match records, the weight array has the length of p.x and consists of
    ones, and the recorded match count is that length; p.y, q.x and q.y
    are the arrays pY, qX and qY of the match record it was built from, so
    the five lengths agree exactly when the four arrays of that record have
    one length. *)
Theorem emitted_lengths (open_w : string -> option Exc)
    (md : Metadata) (tiles : list Tile) (args : Args)
    (fs fs' : FileSystem) (samples : list Sample) (c : Sample) :
  process open_w (Some (md, tiles)) args fs = (fs', inr tt) ->
  fs' !! output_file args = Some (OutputList samples) ->
  In c samples ->
  length (matches_w (matches c)) = length (fst (matches_p (matches c))) /\
  match_count (matches c) = Z.of_nat (length (matches_w (matches c))) /\
  matches_w (matches c) = replicate (length (fst (matches_p (matches c)))) 1 /\
  exists tile ms m,
    In tile tiles /\ matcher tile = Some ms /\ In m ms /\
    matches_p (matches c) = (pX m, pY m) /\
    matches_q (matches c) = (qX m, qY m) /\
    (well_shaped c <-> same_lengths m).
Proof.
  intros Hrun Hfile Hc.
  destruct (process_written_emitted _ _ _ _ _ _ _ _ Hrun Hfile Hc)
    as (rows & cols & tile & ms & m & n & Htile & Hms & Hm & _ & _ & ->).
  unfold well_shaped, same_lengths. simpl. rewrite !length_replicate.
  repeat split; try reflexivity.
  exists tile, ms, m. repeat split; auto; lia.
Qed.

Lemma emitted_lengths_witness :
  length (matches_w (matches
     (correspondence "20190215" ragged_left ragged_right ragged_match))) = 2%nat.
Proof.
  destruct (emitted_lengths always_opens example_metadata ragged_row example_args ∅
              (<["test.json" :=
                   OutputList [correspondence "20190215" ragged_left ragged_right
                                              ragged_match]]> ∅)
              [correspondence "20190215" ragged_left ragged_right ragged_match]
              (correspondence "20190215" ragged_left ragged_right ragged_match))
    as [H _].
  - vm_compute. reflexivity.
  - vm_compute. reflexivity.
  - now left.
  - rewrite H. reflexivity.
Defined.

(** ** Identifiers *)

Lemma dotted_path_counterexample :
  strip_extension ".tif" (img_path dotted_left) = "scan.tif_07/tile_001" /\
  replace ".tif" EmptyString (img_path dotted_left) = "scan_07/tile_001" /\
  (exists c,
      process always_opens (Some (example_metadata, dotted_row)) example_args ∅
      = (<["test.json" := OutputList [c]]> ∅, inr tt) /\
      pId c = "scan_07/tile_001" /\
      qId c = "scan_07/tile_002" /\
      pId c <> strip_extension ".tif" (img_path dotted_left) /\
      qId c <> strip_extension ".tif" (img_path dotted_right)) /\
  String.prefix ".tif" (drop_chars 8 "tile_001.tiff") = true /\
  strip_extension ".tif" "tile_001.tiff" = "tile_001.tiff" /\
  replace ".tif" EmptyString "tile_001.tiff" = "tile_001f".
Proof.
  split; [reflexivity|]. split; [reflexivity|]. split; [|repeat split; reflexivity].
  exists (correspondence "20190215" dotted_left dotted_right dotted_match).
  split; [vm_compute; reflexivity|].
  repeat split; try reflexivity; vm_compute; discriminate.
Qed.

(** Every sample a successful run wrote was appended for a match of a
    tile of the data, resolved over the dictionary of that run. *)
Lemma process_written_resolved (open_w : string -> option Exc) (md : Metadata)
    (tiles : list Tile) (args : Args) (fs fs' : FileSystem)
    (samples : list Sample) (c : Sample) :
  process open_w (Some (md, tiles)) args fs = (fs', inr tt) ->
  fs' !! output_file args = Some (OutputList samples) ->
  In c samples ->
  exists rows cols,
    max (raster_rows tiles) = inr rows /\
    max (raster_cols tiles) = inr cols /\
    emitted_from (session_args args tiles rows cols) (session_id md) tiles c.
Proof.
  intros Hrun Hfile Hc.
  apply process_success in Hrun as (rows & cols & samples' & tilespecs & Hr & Hcol & Hloop & ->).
  rewrite lookup_insert_eq in Hfile. injection Hfile as ->.
  exists rows, cols. repeat split; auto. eapply tile_loop_emitted; eauto.
Qed.

(** C4 (amended): for every correspondence a run writes, the pId is the
    image path of the tile that carries the match record and the qId is
    the image path of the neighbour the resolver returned for that record,
    each with every occurrence of ".tif" removed, taken left to right,
    wherever in the path it stands: a path without ".tif" is the
    identifier itself; a path that ends with ".tif" and has no other
    occurrence loses that suffix; in general the text before the first
    occurrence is kept and the removal goes on after the occurrence;
    "tile_001.tif" gives "tile_001". *)
Theorem ids_remove_every_tif (open_w : string -> option Exc) (md : Metadata)
    (tiles : list Tile) (args : Args)
    (fs fs' : FileSystem) (samples : list Sample) (c : Sample) :
  process open_w (Some (md, tiles)) args fs = (fs', inr tt) ->
  fs' !! output_file args = Some (OutputList samples) ->
  In c samples ->
  (exists rows cols tile ms m neighbor,
      max (raster_rows tiles) = inr rows /\
      max (raster_cols tiles) = inr cols /\
      In tile tiles /\ matcher tile = Some ms /\ In m ms /\
      is_no_match (match_quality m) = false /\
      tile_from_tile (session_args args tiles rows cols) tile (position m)
      = inr (Some neighbor) /\
      In neighbor tiles /\
      pId c = replace ".tif" EmptyString (img_path tile) /\
      qId c = replace ".tif" EmptyString (img_path neighbor)) /\
  (forall path, occurs ".tif" path = false -> replace ".tif" EmptyString path = path) /\
  (forall stem, occurs ".tif" stem = false ->
                replace ".tif" EmptyString (String.append stem ".tif") = stem) /\
  (forall before after,
      occurs ".tif" before = false ->
      replace ".tif" EmptyString (String.append before (String.append ".tif" after))
      = String.append before (replace ".tif" EmptyString after)) /\
  replace ".tif" EmptyString "tile_001.tif" = "tile_001".
Proof.
  intros Hrun Hfile Hc.
  destruct (process_written_resolved _ _ _ _ _ _ _ _ Hrun Hfile Hc)
    as (rows & cols & Hr & Hcol & tile & ms & m & n & Htile & Hms & Hm & Hq & Hres & ->).
  split; [|split; [|split; [|split]]].
  - exists rows, cols, tile, ms, m, n.
    repeat split; eauto using resolved_in_data.
  - intros path. apply replace_absent.
  - apply replace_tif_suffix.
  - apply replace_tif_app.
  - reflexivity.
Qed.

Lemma ids_remove_every_tif_witness :
  exists rows cols tile ms m neighbor,
    max (raster_rows ragged_row) = inr rows /\
    max (raster_cols ragged_row) = inr cols /\
    In tile ragged_row /\ matcher tile = Some ms /\ In m ms /\
    is_no_match (match_quality m) = false /\
    tile_from_tile (session_args example_args ragged_row rows cols) tile (position m)
    = inr (Some neighbor) /\
    In neighbor ragged_row /\
    pId (correspondence "20190215" ragged_left ragged_right ragged_match)
    = replace ".tif" EmptyString (img_path tile) /\
    qId (correspondence "20190215" ragged_left ragged_right ragged_match)
    = replace ".tif" EmptyString (img_path neighbor).
Proof.
  apply (ids_remove_every_tif always_opens example_metadata ragged_row example_args ∅
           (<["test.json" :=
                OutputList [correspondence "20190215" ragged_left ragged_right
                                           ragged_match]]> ∅)
           [correspondence "20190215" ragged_left ragged_right ragged_match]
           (correspondence "20190215" ragged_left ragged_right ragged_match)).
  - vm_compute. reflexivity.
  - vm_compute. reflexivity.
  - now left.
Defined.

(** ** The written document *)

(** C9: when [process] succeeds, the document at the output path is the
    bare list of the samples the tile loop accumulated, in order; the
    tilespecs of all tiles were built by the same loop, yet the document
    is never the dict that carries them with the calibration. *)
Theorem written_document_is_sample_list (open_w : string -> option Exc)
    (metafile : option JsonData) (args : Args)
    (fs fs' : FileSystem) :
  process open_w metafile args fs = (fs', inr tt) ->
  exists md tiles rows cols samples tilespecs,
    metafile = Some (md, tiles) /\
    max (raster_rows tiles) = inr rows /\
    max (raster_cols tiles) = inr cols /\
    for_each (tile_body (session_args args tiles rows cols)
                        (session_id md) (session_id md)) ([], []) tiles
      = inr (samples, tilespecs) /\
    tilespecs = map tilespec_of tiles /\
    fs' = <[output_file args := OutputList samples]> fs /\
    fs' !! output_file args = Some (OutputList samples) /\
    forall collection calibration ts,
      fs' !! output_file args <> Some (OutputDict collection calibration ts).
Proof.
  destruct metafile as [[md tiles]|]; [|discriminate].
  intros Hrun.
  apply process_success in Hrun as (rows & cols & samples & tilespecs & Hr & Hc & Hloop & ->).
  exists md, tiles, rows, cols, samples, tilespecs.
  rewrite lookup_insert_eq. repeat split; auto; try discriminate.
  now apply tile_loop_tilespecs in Hloop.
Qed.

Lemma written_document_is_sample_list_witness :
  exists md tiles rows cols samples tilespecs,
    Some (example_metadata, ragged_row) = Some (md, tiles) /\
    max (raster_rows tiles) = inr rows /\
    max (raster_cols tiles) = inr cols /\
    for_each (tile_body (session_args example_args tiles rows cols)
                        (session_id md) (session_id md)) ([], []) tiles
      = inr (samples, tilespecs) /\
    tilespecs = map tilespec_of tiles /\
    (<["test.json" :=
         OutputList [correspondence "20190215" ragged_left ragged_right ragged_match]]> ∅
     : FileSystem)
    = <[output_file example_args := OutputList samples]> ∅ /\
    (<["test.json" :=
         OutputList [correspondence "20190215" ragged_left ragged_right ragged_match]]> ∅
     : FileSystem) !! output_file example_args = Some (OutputList samples) /\
    forall collection calibration ts,
      (<["test.json" :=
           OutputList [correspondence "20190215" ragged_left ragged_right ragged_match]]> ∅
       : FileSystem) !! output_file example_args
      <> Some (OutputDict collection calibration ts).
Proof.
  apply (written_document_is_sample_list always_opens
           (Some (example_metadata, ragged_row)) example_args ∅).
  vm_compute. reflexivity.
Defined.


(** * Further properties of the module *)

(** ** The dictionary built by [create_raster_pos_dict] *)

Lemma occupant_app (l1 l2 : list Tile) (col row : Z) :
  occupant (l1 ++ l2) col row
  = match occupant l2 col row with
    | Some t => Some t
    | None => occupant l1 col row
    end.
Proof.
  induction l1 as [|t l1 IH]; simpl.
  - now destruct (occupant l2 col row).
  - rewrite IH. now destruct (occupant l2 col row).
Qed.

Lemma occupant_last (before after : list Tile) (t : Tile) :
  (forall t', In t' after -> raster_pos (img_meta t') <> raster_pos (img_meta t)) ->
  occupant (before ++ t :: after)
           (fst (raster_pos (img_meta t))) (snd (raster_pos (img_meta t))) = Some t.
Proof.
  intros Hafter. rewrite occupant_app. simpl.
  destruct (raster_pos (img_meta t)) as [c r] eqn:Hpos. simpl.
  assert (occupant after c r = None) as -> by now apply occupant_None.
  rewrite decide_True by reflexivity. reflexivity.
Qed.

Lemma occupant_of_member (tiles : list Tile) (t : Tile) :
  In t tiles ->
  exists t', occupant tiles (fst (raster_pos (img_meta t)))
                      (snd (raster_pos (img_meta t))) = Some t'.
Proof.
  intros Hin.
  destruct (occupant tiles _ _) as [t'|] eqn:Hocc; [eauto|].
  exfalso. apply (proj1 (occupant_None _ _ _) Hocc t Hin).
  now destruct (raster_pos (img_meta t)).
Qed.

Lemma index_entry (tiles : list Tile) (m0 : gmap string Tile) (k : string) (t : Tile) :
  fold_left
    (fun lookup tile =>
       let '(c, r) := raster_pos (img_meta tile) in
       <[raster_key c r := tile]> lookup) tiles m0 !! k = Some t ->
  m0 !! k = Some t \/
  (In t tiles /\
   k = raster_key (fst (raster_pos (img_meta t))) (snd (raster_pos (img_meta t)))).
Proof.
  revert m0. induction tiles as [|t0 ts IH]; simpl; intros m0 H; [auto|].
  apply IH in H as [H|[Hin Hk]]; [|auto].
  destruct (raster_pos (img_meta t0)) as [c r] eqn:Hpos.
  destruct (decide (raster_key c r = k)) as [<-|Hne].
  - rewrite lookup_insert_eq in H. injection H as <-. right. rewrite Hpos. auto.
  - rewrite lookup_insert_ne in H by assumption. auto.
Qed.

Lemma index_size_le (tiles : list Tile) (m0 : gmap string Tile) :
  (size (fold_left
           (fun lookup tile =>
              let '(c, r) := raster_pos (img_meta tile) in
              <[raster_key c r := tile]> lookup) tiles m0)
   <= size m0 + length tiles)%nat.
Proof.
  revert m0. induction tiles as [|t ts IH]; simpl; intros m0; [lia|].
  destruct (raster_pos (img_meta t)) as [c r].
  etransitivity; [apply IH|]. rewrite map_size_insert.
  destruct (m0 !! raster_key c r); simpl; lia.
Qed.

Lemma index_size_eq (tiles : list Tile) (m0 : gmap string Tile) :
  List.NoDup (raster_positions tiles) ->
  (forall t, In t tiles ->
             m0 !! raster_key (fst (raster_pos (img_meta t)))
                              (snd (raster_pos (img_meta t))) = None) ->
  size (fold_left
          (fun lookup tile =>
             let '(c, r) := raster_pos (img_meta tile) in
             <[raster_key c r := tile]> lookup) tiles m0)
  = (size m0 + length tiles)%nat.
Proof.
  revert m0. induction tiles as [|t ts IH]; simpl; intros m0 Hnd Hfree; [lia|].
  apply NoDup_cons_iff in Hnd as [Hnotin Hnd].
  pose proof (Hfree t (or_introl eq_refl)) as Ht.
  destruct (raster_pos (img_meta t)) as [c r] eqn:Hpos. simpl in Ht.
  rewrite IH; [|assumption|].
  - rewrite map_size_insert_None by assumption. lia.
  - intros t' Ht'. rewrite lookup_insert_ne; [now apply Hfree; right|].
    intros Hk. apply raster_key_inj in Hk as [Hc Hr].
    apply Hnotin. unfold raster_positions.
    apply in_map_iff. exists t'. split; [|assumption].
    destruct (raster_pos (img_meta t')); simpl in *; congruence.
Qed.

(** X1: the dictionary key [str(col) + "_" + str(row)] identifies the
    cell: two raster positions, negative coordinates included, have the
    same key exactly when they are the same position. *)
Theorem raster_key_injective (c r c' r' : Z) :
  raster_key c r = raster_key c' r' <-> (c, r) = (c', r').
Proof.
  split.
  - intros H. apply raster_key_inj in H as [-> ->]. reflexivity.
  - now intros [= -> ->].
Qed.

(** X2: whatever the dictionary holds after [create_raster_pos_dict] is
    a tile of [args.data], stored under the key of its own raster
    position; what the namespace held as dictionary before is gone. *)
Theorem index_entries_sound (args : Args) (k : string) (t : Tile) :
  raster_pos_lookup (create_raster_pos_dict args) !! k = Some t ->
  In t (data args) /\
  k = raster_key (fst (raster_pos (img_meta t))) (snd (raster_pos (img_meta t))).
Proof.
  unfold create_raster_pos_dict. simpl. intros H.
  apply index_entry in H as [H|H]; [|exact H].
  rewrite lookup_empty in H. discriminate.
Qed.

Lemma index_entries_sound_witness :
  In ragged_right (data (set_data example_args ragged_row)) /\
  "1_0" = raster_key (fst (raster_pos (img_meta ragged_right)))
                     (snd (raster_pos (img_meta ragged_right))).
Proof.
  apply (index_entries_sound (set_data example_args ragged_row) "1_0" ragged_right).
  vm_compute. reflexivity.
Defined.

(** X3: when several tiles share a raster position the last one in the
    data is the one the dictionary keeps: a tile that no later tile
    shares its position with is found under its key. *)
Theorem index_last_wins (args : Args) (before after : list Tile) (t : Tile) :
  data args = (before ++ t :: after)%list ->
  (forall t', In t' after -> raster_pos (img_meta t') <> raster_pos (img_meta t)) ->
  raster_pos_lookup (create_raster_pos_dict args)
    !! raster_key (fst (raster_pos (img_meta t))) (snd (raster_pos (img_meta t)))
  = Some t.
Proof.
  intros Hdata Hafter.
  rewrite create_raster_pos_dict_lookup, Hdata. now apply occupant_last.
Qed.

Lemma index_last_wins_witness :
  raster_pos_lookup
    (create_raster_pos_dict
       (set_data example_args [ragged_left; tile_at "again.tif" 0 0 None; ragged_right]))
    !! raster_key 0 0
  = Some (tile_at "again.tif" 0 0 None).
Proof.
  apply (index_last_wins
           (set_data example_args [ragged_left; tile_at "again.tif" 0 0 None; ragged_right])
           [ragged_left] [ragged_right] (tile_at "again.tif" 0 0 None)).
  - reflexivity.
  - intros t' [<-|[]]. discriminate.
Defined.

(** X4: the dictionary never has more entries than there are tiles, and
    it has one entry per tile when the raster positions are pairwise
    distinct: no tile is lost then. *)
Theorem index_size (args : Args) :
  (size (raster_pos_lookup (create_raster_pos_dict args)) <= length (data args))%nat /\
  (List.NoDup (raster_positions (data args)) ->
   size (raster_pos_lookup (create_raster_pos_dict args)) = length (data args)).
Proof.
  unfold create_raster_pos_dict. simpl. split.
  - etransitivity; [apply index_size_le|]. rewrite map_size_empty. lia.
  - intros Hnd. rewrite index_size_eq; [now rewrite map_size_empty | assumption |].
    intros t _. apply lookup_empty.
Qed.

Lemma index_size_witness :
  size (raster_pos_lookup (create_raster_pos_dict (set_data example_args square_grid)))
  = length (data (set_data example_args square_grid)).
Proof.
  apply (index_size (set_data example_args square_grid)).
  repeat constructor; simpl; intros H; intuition discriminate.
Defined.

(** ** The resolver over an indexed session *)

Lemma session_subscript (args : Args) (tiles : list Tile) (rows cols c r : Z) :
  subscript (raster_pos_lookup (session_args args tiles rows cols)) (raster_key c r)
  = match occupant tiles c r with
    | Some n => inr n
    | None => inl (KeyError (raster_key c r))
    end.
Proof. unfold subscript. rewrite session_args_lookup. now destruct (occupant tiles c r). Qed.

Lemma session_resolve_self (args : Args) (tiles : list Tile) (rows cols col row : Z) :
  tile_from_raster_pos (session_args args tiles rows cols) col row None
  = match occupant tiles col row with
    | Some n => inr (Some n)
    | None => inl (KeyError (raster_key col row))
    end.
Proof.
  unfold tile_from_raster_pos. rewrite session_subscript.
  now destruct (occupant tiles col row).
Qed.

Lemma session_resolve_edge (args : Args) (tiles : list Tile) (rows cols col row : Z)
    (e : Edge) :
  tile_from_raster_pos (session_args args tiles rows cols) col row (Some (Edge_value e))
  = if is_neighbor_direction e
       && boundary_check (session_args args tiles rows cols) col row e
    then match occupant tiles (fst (target_cell col row e)) (snd (target_cell col row e)) with
         | Some n => inr (Some n)
         | None => inl (KeyError (raster_key (fst (target_cell col row e))
                                             (snd (target_cell col row e))))
         end
    else inr None.
Proof.
  destruct (is_neighbor_direction e) eqn:Hn; cbn [andb].
  - destruct (boundary_check _ col row e) eqn:Hb.
    + rewrite resolve_guarded by assumption.
      destruct (target_cell col row e) as [c r]. cbn [fst snd bind].
      rewrite session_subscript. now destruct (occupant tiles c r).
    + destruct e; try discriminate Hn; cbn [boundary_check] in Hb.
      * now rewrite resolve_LEFT, Hb.
      * now rewrite resolve_TOP, Hb.
      * now rewrite resolve_RIGHT, Hb.
  - apply resolve_other; destruct e; discriminate.
Qed.

Lemma same_position_same_tile (tiles : list Tile) (t t' : Tile) :
  List.NoDup (raster_positions tiles) ->
  In t tiles -> In t' tiles ->
  raster_pos (img_meta t') = raster_pos (img_meta t) -> t' = t.
Proof.
  induction tiles as [|t0 ts IH]; simpl; intros Hnd Ht Ht' Hpos; [contradiction|].
  apply NoDup_cons_iff in Hnd as [Hnotin Hnd].
  destruct Ht as [<-|Ht], Ht' as [<-|Ht']; auto.
  - exfalso. apply Hnotin. rewrite <- Hpos.
    now apply (in_map (fun tile => raster_pos (img_meta tile))).
  - exfalso. apply Hnotin. rewrite Hpos.
    now apply (in_map (fun tile => raster_pos (img_meta tile))).
Qed.

Lemma resolve_edge_position (args : Args) (tiles : list Tile)
    (rows cols col row : Z) (e : Edge) (n : Tile) :
  tile_from_raster_pos (session_args args tiles rows cols) col row (Some (Edge_value e))
  = inr (Some n) ->
  In n tiles /\
  raster_pos (img_meta n) = target_cell col row e /\
  is_neighbor_direction e = true /\
  boundary_check (session_args args tiles rows cols) col row e = true.
Proof.
  rewrite session_resolve_edge.
  destruct (is_neighbor_direction e); [|discriminate].
  destruct (boundary_check _ col row e); [|discriminate]. cbn [andb].
  destruct (occupant tiles _ _) as [n'|] eqn:Hocc; [|discriminate].
  intros [= ->]. apply occupant_In in Hocc as [Hin Hpos].
  rewrite Hpos. now destruct (target_cell col row e).
Qed.

(** X5: over the dictionary [process] builds, the resolver is the
    occupancy of the grid: for LEFT, TOP or RIGHT with a passing boundary
    test it returns the occupant of the target cell and raises [KeyError]
    with that cell's key when there is none; for any other member of
    [Edge], or a failing test, it returns none; without a direction it
    returns the occupant of the cell itself or raises for an empty cell. *)
Theorem session_resolver_spec (args : Args) (tiles : list Tile) (rows cols col row : Z) :
  (forall e,
      tile_from_raster_pos (session_args args tiles rows cols) col row
                           (Some (Edge_value e))
      = if is_neighbor_direction e
           && boundary_check (session_args args tiles rows cols) col row e
        then match occupant tiles (fst (target_cell col row e))
                                  (snd (target_cell col row e)) with
             | Some n => inr (Some n)
             | None => inl (KeyError (raster_key (fst (target_cell col row e))
                                                 (snd (target_cell col row e))))
             end
        else inr None) /\
  tile_from_raster_pos (session_args args tiles rows cols) col row None
  = match occupant tiles col row with
    | Some n => inr (Some n)
    | None => inl (KeyError (raster_key col row))
    end.
Proof.
  split; [intros e; apply session_resolve_edge | apply session_resolve_self].
Qed.

(** X6: a neighbour the resolver returns for a member of [Edge] is a
    tile of the data that sits in the adjacent cell the direction points
    to; so the direction is LEFT, TOP or RIGHT and its boundary test
    passed. *)
Theorem resolved_neighbor_adjacent (args : Args) (tiles : list Tile)
    (rows cols col row : Z) (e : Edge) (n : Tile) :
  tile_from_raster_pos (session_args args tiles rows cols) col row (Some (Edge_value e))
  = inr (Some n) ->
  In n tiles /\
  raster_pos (img_meta n) = target_cell col row e /\
  is_neighbor_direction e = true /\
  boundary_check (session_args args tiles rows cols) col row e = true.
Proof. apply resolve_edge_position. Qed.

Lemma resolved_neighbor_adjacent_witness :
  In square_11 square_grid /\
  raster_pos (img_meta square_11) = target_cell 0 1 RIGHT /\
  is_neighbor_direction RIGHT = true /\
  boundary_check (session_args example_args square_grid 1 1) 0 1 RIGHT = true.
Proof.
  apply (resolved_neighbor_adjacent example_args square_grid 1 1 0 1 RIGHT square_11).
  vm_compute. reflexivity.
Defined.

(** X7: from a tile in a column that is not negative, going RIGHT and
    then LEFT from the tile found gives what resolving the tile without a
    direction gives (the occupant of its own cell). *)
Theorem right_then_left (args : Args) (tiles : list Tile) (rows cols : Z)
    (a b : Tile) :
  0 <= fst (raster_pos (img_meta a)) ->
  tile_from_tile (session_args args tiles rows cols) a (Some (Edge_value RIGHT))
  = inr (Some b) ->
  tile_from_tile (session_args args tiles rows cols) b (Some (Edge_value LEFT))
  = tile_from_tile (session_args args tiles rows cols) a None.
Proof.
  unfold tile_from_tile.
  destruct (raster_pos (img_meta a)) as [col row] eqn:Ha. cbn [fst]. intros Hcol Hres.
  apply resolve_edge_position in Hres as (_ & Hb & _ & _). cbn [target_cell] in Hb.
  rewrite Hb, session_resolve_edge, session_resolve_self.
  cbn [is_neighbor_direction boundary_check target_cell andb fst snd].
  destruct (Z.ltb_spec 0 (col + 1)) as [_|]; [|lia].
  now replace (col + 1 - 1) with col by lia.
Qed.

Lemma right_then_left_witness :
  tile_from_tile (session_args example_args square_grid 1 1) square_10
                 (Some (Edge_value LEFT))
  = tile_from_tile (session_args example_args square_grid 1 1) square_00 None.
Proof.
  apply (right_then_left example_args square_grid 1 1 square_00 square_10).
  - simpl. lia.
  - vm_compute. reflexivity.
Defined.

(** X8: from a tile of the data, going LEFT and then RIGHT from the tile
    found gives what resolving the tile without a direction gives. *)
Theorem left_then_right (args : Args) (tiles : list Tile) (rows cols : Z)
    (a b : Tile) :
  max (raster_cols tiles) = inr cols ->
  In a tiles ->
  tile_from_tile (session_args args tiles rows cols) a (Some (Edge_value LEFT))
  = inr (Some b) ->
  tile_from_tile (session_args args tiles rows cols) b (Some (Edge_value RIGHT))
  = tile_from_tile (session_args args tiles rows cols) a None.
Proof.
  intros Hmax Hin. apply max_spec in Hmax as [_ Hle].
  assert (fst (raster_pos (img_meta a)) <= cols) as Hcol.
  { apply Hle. unfold raster_cols.
    now apply (in_map (fun t => fst (raster_pos (img_meta t)))). }
  unfold tile_from_tile.
  destruct (raster_pos (img_meta a)) as [col row] eqn:Ha. cbn [fst] in Hcol. intros Hres.
  apply resolve_edge_position in Hres as (_ & Hb & _ & _). cbn [target_cell] in Hb.
  rewrite Hb, session_resolve_edge, session_resolve_self.
  cbn [is_neighbor_direction boundary_check target_cell andb fst snd].
  rewrite session_args_tcols.
  destruct (Z.ltb_spec (col - 1) cols) as [_|]; [|lia].
  now replace (col - 1 + 1) with col by lia.
Qed.

Lemma left_then_right_witness :
  tile_from_tile (session_args example_args square_grid 1 1) square_00
                 (Some (Edge_value RIGHT))
  = tile_from_tile (session_args example_args square_grid 1 1) square_10 None.
Proof.
  apply (left_then_right example_args square_grid 1 1 square_10 square_00).
  - reflexivity.
  - right. now left.
  - vm_compute. reflexivity.
Defined.

(** X9: resolving a tile of the data without a direction never raises:
    it returns a tile of the data at the same raster position, and the
    tile itself when the raster positions are pairwise distinct. *)
Theorem self_resolution (args : Args) (tiles : list Tile) (rows cols : Z) (t : Tile) :
  In t tiles ->
  exists t',
    tile_from_tile (session_args args tiles rows cols) t None = inr (Some t') /\
    In t' tiles /\
    raster_pos (img_meta t') = raster_pos (img_meta t) /\
    (List.NoDup (raster_positions tiles) -> t' = t).
Proof.
  intros Hin. destruct (occupant_of_member tiles t Hin) as [t' Hocc].
  exists t'. unfold tile_from_tile.
  destruct (raster_pos (img_meta t)) as [col row] eqn:Hpos. simpl in Hocc.
  rewrite session_resolve_self, Hocc.
  apply occupant_In in Hocc as [Hin' Hpos'].
  repeat split; auto.
  intros Hnd. apply (same_position_same_tile tiles); congruence.
Qed.

Lemma self_resolution_witness :
  exists t',
    tile_from_tile (session_args example_args square_grid 1 1) square_01 None
    = inr (Some t') /\
    In t' square_grid /\
    raster_pos (img_meta t') = raster_pos (img_meta square_01) /\
    (List.NoDup (raster_positions square_grid) -> t' = square_01).
Proof.
  apply (self_resolution example_args square_grid 1 1 square_01).
  right. right. now left.
Defined.

(** ** The samples of a run *)

Lemma match_body_eq (args : Args) (tile : Tile) (group : string)
    (samples : list Sample) (m : Match) :
  match_body args tile (replace ".tif" EmptyString (img_path tile)) group group samples m
  = if is_no_match (match_quality m) then inr samples
    else match tile_from_tile args tile (position m) with
         | inl e => inl e
         | inr _ => inr (samples ++ match_samples args group tile m)%list
         end.
Proof.
  unfold match_body, match_samples. destruct (is_no_match _); [reflexivity|].
  destruct (tile_from_tile args tile (position m)) as [e|[n|]]; simpl.
  - reflexivity.
  - unfold correspondence. now rewrite length_replicate.
  - now rewrite app_nil_r.
Qed.

Lemma match_loop_samples (args : Args) (tile : Tile) (group : string) (ms : list Match) :
  (forall m, In m ms -> ~ raising_match args tile m) ->
  forall samples,
    for_each (match_body args tile (replace ".tif" EmptyString (img_path tile)) group group)
             samples ms
    = inr (samples ++ flat_map (match_samples args group tile) ms)%list.
Proof.
  induction ms as [|m ms IH]; simpl; intros Hok samples.
  - now rewrite app_nil_r.
  - rewrite match_body_eq. unfold match_samples at 2.
    destruct (is_no_match (match_quality m)) eqn:Hq; simpl.
    + apply IH. auto.
    + destruct (tile_from_tile args tile (position m)) as [e|res] eqn:Hres.
      * exfalso. apply (Hok m (or_introl eq_refl)). split; eauto.
      * simpl. rewrite IH by auto. rewrite <- app_assoc. do 2 f_equal.
        unfold match_samples. now rewrite Hq, Hres.
Qed.

Lemma tile_loop_samples (args : Args) (group : string) (tiles : list Tile) :
  (forall tile, In tile tiles -> stage_converts tile) ->
  (forall tile ms m, In tile tiles -> matcher tile = Some ms -> In m ms ->
                     ~ raising_match args tile m) ->
  forall samples tilespecs,
    for_each (tile_body args group group) (samples, tilespecs) tiles
    = inr ((samples ++ flat_map (tile_samples args group) tiles)%list,
           (tilespecs ++ map tilespec_of tiles)%list).
Proof.
  induction tiles as [|tile tiles IH]; intros Hconv Hok samples tilespecs.
  - simpl. now rewrite !app_nil_r.
  - cbn [for_each flat_map map].
    rewrite tile_body_converts by (apply Hconv; now left). unfold tile_samples at 1.
    destruct (matcher tile) as [ms|] eqn:Hms.
    + rewrite match_loop_samples by (intros; eapply Hok; eauto; now left).
      cbn [bind ret].
      rewrite IH; [now rewrite <- !app_assoc | |];
        intros; [apply Hconv | eapply Hok]; eauto; now right.
    + cbn [bind ret].
      rewrite IH; [now rewrite <- !app_assoc | |];
        intros; [apply Hconv | eapply Hok]; eauto; now right.
Qed.

Lemma tile_loop_no_raise (args : Args) (group : string) (tiles : list Tile)
    (st st' : list Sample * list TileSpec) :
  for_each (tile_body args group group) st tiles = inr st' ->
  forall tile ms m, In tile tiles -> matcher tile = Some ms -> In m ms ->
                    ~ raising_match args tile m.
Proof.
  intros Hrun tile ms m Htile Hms Hm [Hq [e He]].
  destruct (tile_loop_aborts args group tiles tile ms m Htile Hms Hm) with (st := st)
    as [err Herr].
  - intros pId_ samples. exists e. now apply match_body_raises.
  - congruence.
Qed.




Lemma session_args_stale (args args' : Args) (tiles : list Tile) (rows cols : Z) :
  directory args' = directory args ->
  output_file args' = output_file args ->
  session_args args' tiles rows cols = session_args args tiles rows cols.
Proof.
  intros Hd Ho. unfold session_args, create_raster_pos_dict, set_raster_pos_lookup,
    set_tcols, set_trows, set_data. simpl. now rewrite Hd, Ho.
Qed.

Lemma process_loop_success (open_w : string -> option Exc) (md : Metadata)
    (tiles : list Tile) (args : Args) (fs fs' : FileSystem) :
  process open_w (Some (md, tiles)) args fs = (fs', inr tt) ->
  exists rows cols,
    max (raster_rows tiles) = inr rows /\
    max (raster_cols tiles) = inr cols /\
    (forall tile ms m, In tile tiles -> matcher tile = Some ms -> In m ms ->
                       ~ raising_match (session_args args tiles rows cols) tile m) /\
    fs' = <[output_file args :=
              OutputList (flat_map (tile_samples (session_args args tiles rows cols)
                                                 (session_id md)) tiles)]> fs.
Proof.
  intros Hrun.
  pose proof (process_success_env _ _ _ _ _ _ Hrun) as (Hconv & _ & _).
  apply process_success in Hrun as (rows & cols & samples & tilespecs & Hr & Hc & Hloop & ->).
  exists rows, cols. pose proof (tile_loop_no_raise _ _ _ _ _ Hloop) as Hok.
  rewrite (tile_loop_samples _ _ _ Hconv Hok) in Hloop. injection Hloop as <- _.
  auto.
Qed.


Lemma match_samples_length (args : Args) (group : string) (tile : Tile) (m : Match) :
  (length (match_samples args group tile m) <= 1)%nat.
Proof.
  unfold match_samples. destruct (is_no_match _); simpl; [lia|].
  destruct (tile_from_tile _ _ _) as [e|[n|]]; simpl; lia.
Qed.

Lemma tile_samples_length (args : Args) (group : string) (tiles : list Tile) :
  (length (flat_map (tile_samples args group) tiles) <= match_records tiles)%nat.
Proof.
  unfold match_records.
  induction tiles as [|tile tiles IH]; simpl; [lia|].
  rewrite length_app. unfold tile_samples at 1.
  destruct (matcher tile) as [ms|]; simpl; [|lia].
  assert (length (flat_map (match_samples args group tile) ms) <= length ms)%nat; [|lia].
  clear. induction ms as [|m ms IH]; simpl; [lia|].
  rewrite length_app. pose proof (match_samples_length args group tile m). lia.
Qed.

(** X10: the document a successful run writes holds, tile by tile in
    the order of the data and record by record in the order stored, one
    correspondence for each record that does not carry the sentinel and
    whose neighbour resolves, and nothing else. *)
Theorem written_samples_in_order (open_w : string -> option Exc) (md : Metadata)
    (tiles : list Tile) (args : Args) (fs fs' : FileSystem) :
  process open_w (Some (md, tiles)) args fs = (fs', inr tt) ->
  exists rows cols,
    max (raster_rows tiles) = inr rows /\
    max (raster_cols tiles) = inr cols /\
    fs' = <[output_file args :=
              OutputList (flat_map (tile_samples (session_args args tiles rows cols)
                                                 (session_id md)) tiles)]> fs.
Proof.
  intros Hrun. apply process_loop_success in Hrun as (rows & cols & Hr & Hc & _ & ->).
  eauto.
Qed.

Lemma written_samples_in_order_witness :
  exists rows cols,
    max (raster_rows square_grid) = inr rows /\
    max (raster_cols square_grid) = inr cols /\
    (<["test.json" :=
         OutputList [correspondence "20190215" square_00 square_10 square_match;
                     correspondence "20190215" square_01 square_11 square_match]]> ∅
     : FileSystem)
    = <[output_file example_args :=
          OutputList (flat_map (tile_samples (session_args example_args square_grid rows cols)
                                             (session_id example_metadata))
                               square_grid)]> ∅.
Proof.
  apply (written_samples_in_order always_opens example_metadata square_grid example_args ∅).
  vm_compute. reflexivity.
Defined.



(** X12: over the dictionary [process] builds, the resolver raises
    nothing but [KeyError], and only with the key of a cell that no tile
    of the data occupies: the cell the direction points to, or the
    position itself when no direction is given. *)
Theorem resolver_error_names_empty_cell (args : Args) (tiles : list Tile)
    (rows cols col row : Z) (direction : option Z) (err : Exc) :
  tile_from_raster_pos (session_args args tiles rows cols) col row direction = inl err ->
  exists c r,
    err = KeyError (raster_key c r) /\
    (forall t, In t tiles -> raster_pos (img_meta t) <> (c, r)) /\
    match direction with
    | None => (c, r) = (col, row)
    | Some d =>
        exists e, d = Edge_value e /\ is_neighbor_direction e = true /\
                  boundary_check (session_args args tiles rows cols) col row e = true /\
                  target_cell col row e = (c, r)
    end.
Proof.
  destruct direction as [d|].
  - assert (forall e, d = Edge_value e ->
              tile_from_raster_pos (session_args args tiles rows cols) col row (Some d)
              = inl err ->
              exists c r,
                err = KeyError (raster_key c r) /\
                (forall t, In t tiles -> raster_pos (img_meta t) <> (c, r)) /\
                exists e0, d = Edge_value e0 /\ is_neighbor_direction e0 = true /\
                  boundary_check (session_args args tiles rows cols) col row e0 = true /\
                  target_cell col row e0 = (c, r)) as Hedge.
    { intros e -> Hres. rewrite session_resolve_edge in Hres.
      destruct (is_neighbor_direction e) eqn:Hn; [|discriminate].
      destruct (boundary_check _ col row e) eqn:Hb; [|discriminate]. cbn [andb] in Hres.
      destruct (target_cell col row e) as [c r] eqn:Ht. cbn [fst snd] in Hres.
      destruct (occupant tiles c r) eqn:Hocc; [discriminate|].
      injection Hres as <-. exists c, r. split; [reflexivity|].
      split; [now apply occupant_None|]. exists e. auto. }
    destruct (Z.eq_dec d (Edge_value LEFT)) as [HL|HL]; [now apply (Hedge LEFT)|].
    destruct (Z.eq_dec d (Edge_value TOP)) as [HT|HT]; [now apply (Hedge TOP)|].
    destruct (Z.eq_dec d (Edge_value RIGHT)) as [HR|HR]; [now apply (Hedge RIGHT)|].
    rewrite resolve_other by assumption. discriminate.
  - rewrite session_resolve_self.
    destruct (occupant tiles col row) eqn:Hocc; [discriminate|].
    intros [= <-]. exists col, row. split; [reflexivity|].
    split; [now apply occupant_None | reflexivity].
Qed.

Lemma resolver_error_names_empty_cell_witness :
  exists c r,
    KeyError "1_0" = KeyError (raster_key c r) /\
    (forall t, In t gap_row -> raster_pos (img_meta t) <> (c, r)) /\
    exists e, 4 = Edge_value e /\ is_neighbor_direction e = true /\
              boundary_check (session_args example_args gap_row 0 2) 0 0 e = true /\
              target_cell 0 0 e = (c, r).
Proof.
  apply (resolver_error_names_empty_cell example_args gap_row 0 2 0 0 (Some 4)
                                         (KeyError "1_0")).
  vm_compute. reflexivity.
Defined.



(** X14: an output path that cannot be opened makes every run fail and
    leave the file system as it was; the failure comes last: a run that
    would succeed where the path opens ends with the exception of
    [open], any other run ends with the error it ends with there. *)
Theorem unopenable_output_fails (open_w : string -> option Exc)
    (metafile : option JsonData) (args : Args) (fs : FileSystem) (err : Exc) :
  open_w (output_file args) = Some err ->
  (forall fs', process always_opens metafile args fs = (fs', inr tt) ->
               process open_w metafile args fs = (fs, inl err)) /\
  (forall fs' e, process always_opens metafile args fs = (fs', inl e) ->
                 process open_w metafile args fs = (fs, inl e)).
Proof.
  intros Hopen. destruct metafile as [[md tiles]|].
  - rewrite !process_unfold, Hopen. unfold always_opens.
    destruct (max (raster_rows tiles)); [split; [discriminate | now intros ? ? [= _ <-]]|].
    destruct (max (raster_cols tiles)); [split; [discriminate | now intros ? ? [= _ <-]]|].
    destruct (for_each _ _ _) as [e'|[samples tilespecs]];
      [split; [discriminate | now intros ? ? [= _ <-]]|].
    destruct (float (nm_per_pix _)); [split; [discriminate | now intros ? ? [= _ <-]]|].
    destruct (float (angle _)); [split; [discriminate | now intros ? ? [= _ <-]]|].
    split; [reflexivity | discriminate].
  - split; [discriminate|]. unfold process. now intros ? ? [= _ <-].
Qed.

Lemma unopenable_output_fails_witness :
  process never_opens (Some (example_metadata, ragged_row)) example_args ∅
  = (∅, inl (OSError "PermissionError")).
Proof.
  apply (proj1 (unopenable_output_fails never_opens
                  (Some (example_metadata, ragged_row))
                  example_args ∅ (OSError "PermissionError") eq_refl)
               (<["test.json" :=
                    OutputList [correspondence "20190215" ragged_left ragged_right
                                               ragged_match]]> ∅)).
  vm_compute. reflexivity.
Defined.



(** X16: both group ids of every correspondence a run writes are the
    session id of the metadata. *)
Theorem group_ids_are_session_id (open_w : string -> option Exc)
    (md : Metadata) (tiles : list Tile) (args : Args)
    (fs fs' : FileSystem) (samples : list Sample) (c : Sample) :
  process open_w (Some (md, tiles)) args fs = (fs', inr tt) ->
  fs' !! output_file args = Some (OutputList samples) ->
  In c samples ->
  pGroupId c = session_id md /\ qGroupId c = session_id md.
Proof.
  intros Hrun Hfile Hc.
  destruct (process_written_emitted _ _ _ _ _ _ _ _ Hrun Hfile Hc)
    as (rows & cols & tile & ms & m & n & _ & _ & _ & _ & _ & ->).
  split; reflexivity.
Qed.

Lemma group_ids_are_session_id_witness :
  pGroupId (correspondence "20190215" ragged_left ragged_right ragged_match)
  = session_id example_metadata /\
  qGroupId (correspondence "20190215" ragged_left ragged_right ragged_match)
  = session_id example_metadata.
Proof.
  apply (group_ids_are_session_id always_opens example_metadata ragged_row example_args ∅
           (<["test.json" :=
                OutputList [correspondence "20190215" ragged_left ragged_right
                                           ragged_match]]> ∅)
           [correspondence "20190215" ragged_left ragged_right ragged_match]).
  - vm_compute. reflexivity.
  - vm_compute. reflexivity.
  - now left.
Defined.




(** X18: [process] takes nothing from the namespace but the directory
    and the output path: the data, the bounds and the dictionary it may
    carry from an earlier call are replaced before they are read. *)
Theorem process_ignores_stale_attributes (open_w : string -> option Exc)
    (metafile : option JsonData)
    (args args' : Args) (fs : FileSystem) :
  directory args' = directory args ->
  output_file args' = output_file args ->
  process open_w metafile args' fs = process open_w metafile args fs.
Proof.
  intros Hd Ho. destruct metafile as [[md tiles]|].
  - rewrite !process_unfold.
    destruct (max (raster_rows tiles)) as [e|rows]; [reflexivity|].
    destruct (max (raster_cols tiles)) as [e|cols]; [reflexivity|].
    now rewrite (session_args_stale args args' tiles rows cols Hd Ho), Ho.
  - unfold process. now rewrite Hd.
Qed.

Lemma process_ignores_stale_attributes_witness :
  process always_opens (Some (example_metadata, ragged_row))
          (session_args example_args gap_row 9 9) ∅
  = process always_opens (Some (example_metadata, ragged_row)) example_args ∅.
Proof.
  apply (process_ignores_stale_attributes always_opens
           (Some (example_metadata, ragged_row)) example_args
           (session_args example_args gap_row 9 9) ∅); reflexivity.
Defined.

(** X19: a run never writes more correspondences than the tiles have
    match records. *)
Theorem sample_count_bounded (open_w : string -> option Exc)
    (md : Metadata) (tiles : list Tile) (args : Args)
    (fs fs' : FileSystem) (samples : list Sample) :
  process open_w (Some (md, tiles)) args fs = (fs', inr tt) ->
  fs' !! output_file args = Some (OutputList samples) ->
  (length samples <= match_records tiles)%nat.
Proof.
  intros Hrun Hfile.
  apply process_loop_success in Hrun as (rows & cols & _ & _ & _ & ->).
  rewrite lookup_insert_eq in Hfile. injection Hfile as <-.
  apply tile_samples_length.
Qed.

Lemma sample_count_bounded_witness :
  (length [correspondence "20190215" square_00 square_10 square_match;
           correspondence "20190215" square_01 square_11 square_match]
   <= match_records square_grid)%nat.
Proof.
  apply (sample_count_bounded always_opens example_metadata square_grid example_args ∅
           (<["test.json" :=
                OutputList [correspondence "20190215" square_00 square_10 square_match;
                            correspondence "20190215" square_01 square_11 square_match]]> ∅)).
  - vm_compute. reflexivity.
  - vm_compute. reflexivity.
Defined.

(** X20: a record whose position is null is not dropped: unless it
    carries the sentinel, the resolver returns the occupant of the tile's
    own cell and the loop body appends a correspondence that pairs the
    tile with it, with the tile itself when the raster positions are
    pairwise distinct. *)
Theorem null_position_pairs_tile_with_itself (args : Args) (tiles : list Tile)
    (rows cols : Z) (tile : Tile) (group : string) (samples : list Sample) (m : Match) :
  In tile tiles ->
  position m = None ->
  is_no_match (match_quality m) = false ->
  exists t',
    In t' tiles /\
    raster_pos (img_meta t') = raster_pos (img_meta tile) /\
    (List.NoDup (raster_positions tiles) -> t' = tile) /\
    match_body (session_args args tiles rows cols) tile
               (replace ".tif" EmptyString (img_path tile)) group group samples m
    = inr (samples ++ [correspondence group tile t' m])%list.
Proof.
  intros Htile Hpos Hq.
  destruct (occupant_of_member tiles tile Htile) as [t' Hocc].
  assert (tile_from_tile (session_args args tiles rows cols) tile (position m)
          = inr (Some t')) as Hres.
  { unfold tile_from_tile. destruct (raster_pos (img_meta tile)) as [col row].
    cbn [fst snd] in Hocc. now rewrite Hpos, session_resolve_self, Hocc. }
  exists t'. apply occupant_In in Hocc as [Hin' Hpos'].
  assert (raster_pos (img_meta t') = raster_pos (img_meta tile)) as Hsame.
  { rewrite Hpos'. now destruct (raster_pos (img_meta tile)). }
  repeat split; auto.
  - intros Hnd. now apply (same_position_same_tile tiles).
  - now apply match_body_resolved.
Qed.

Lemma null_position_pairs_tile_with_itself_witness :
  exists t',
    In t' [null_tile; ragged_right] /\
    raster_pos (img_meta t') = raster_pos (img_meta null_tile) /\
    (List.NoDup (raster_positions [null_tile; ragged_right]) -> t' = null_tile) /\
    match_body (session_args example_args [null_tile; ragged_right] 0 1) null_tile
               (replace ".tif" EmptyString (img_path null_tile))
               "20190215" "20190215" [] null_match
    = inr ([] ++ [correspondence "20190215" null_tile t' null_match])%list.
Proof.
  apply (null_position_pairs_tile_with_itself
           example_args [null_tile; ragged_right] 0 1 null_tile "20190215" [] null_match).
  - now left.
  - reflexivity.
  - reflexivity.
Defined.

(** ** Locating the metafile *)

Lemma fold_last (names : list string) (name : string) (init : option string) :
  fold_left (fun _ n => Some n) (names ++ [name])%list init = Some name.
Proof. now rewrite fold_left_app. Qed.

(** X21: of several metafile candidates the last one the glob lists is
    the one returned and the only one [process] loads; the montage file
    is the last candidate or [None] and plays no part in the run; without
    a metafile candidate the lookup fails and [process] raises the
    [Exception] that names the directory, writing nothing. *)
Theorem metafile_discovery (open_w : string -> option Exc)
    (earlier montage_glob : list string) (name : string)
    (load : string -> option JsonData) (args : Args) (fs : FileSystem) :
  get_meta_and_montage_files [] montage_glob = None /\
  get_meta_and_montage_files (earlier ++ [name]) [] = Some (name, None) /\
  (forall others montage,
      get_meta_and_montage_files (earlier ++ [name]) (others ++ [montage])
      = Some (name, Some montage)) /\
  process_directory open_w (earlier ++ [name]) montage_glob load args fs
  = process open_w (load name) args fs /\
  process_directory open_w [] montage_glob load args fs
  = (fs, inl (Exception (String.append "Cannot find or parse metafile in: "
                                       (directory args)))).
Proof.
  unfold process_directory, find_and_parse, get_meta_and_montage_files.
  rewrite !fold_last. repeat split.
  intros others montage. now rewrite fold_last.
Qed.

(** ** The stack name of the batch script *)

Lemma prefix_char (a c : ascii) (s : string) :
  String.prefix (String a EmptyString) (String c s) = true <-> a = c.
Proof.
  cbn [String.prefix]. destruct (ascii_dec a c) as [->|Hne].
  - rewrite prefix_empty. tauto.
  - split; [discriminate | contradiction].
Qed.

Lemma replace_char_hit (a : ascii) (new s : string) :
  replace (String a EmptyString) new (String a s)
  = String.append new (replace (String a EmptyString) new s).
Proof.
  unfold replace. cbn [replace_from].
  now rewrite (proj2 (prefix_char a a s) eq_refl).
Qed.

Lemma replace_char_miss (a c : ascii) (new s : string) :
  a <> c ->
  replace (String a EmptyString) new (String c s)
  = String c (replace (String a EmptyString) new s).
Proof.
  intros Hne. unfold replace. cbn [replace_from].
  destruct (String.prefix (String a EmptyString) (String c s)) eqn:Hp; [|reflexivity].
  apply prefix_char in Hp. contradiction.
Qed.

Lemma occurs_char_cons (a c : ascii) (s : string) :
  occurs (String a EmptyString) (String c s) = false <->
  a <> c /\ occurs (String a EmptyString) s = false.
Proof.
  cbn [occurs]. rewrite orb_false_iff. split; intros [Hp Ho]; split; auto.
  - intros ->. now rewrite (proj2 (prefix_char c c s) eq_refl) in Hp.
  - destruct (String.prefix _ _) eqn:E; [|reflexivity].
    apply prefix_char in E. contradiction.
Qed.

(** Replacing a character by a different one leaves none of it. *)
Lemma replace_char_removes (a b : ascii) (s : string) :
  a <> b ->
  occurs (String a EmptyString)
         (replace (String a EmptyString) (String b EmptyString) s) = false.
Proof.
  intros Hne. induction s as [|c s IH]; [reflexivity|].
  destruct (ascii_dec a c) as [<-|Hc].
  - rewrite replace_char_hit, append_cons, append_nil. now apply occurs_char_cons.
  - rewrite replace_char_miss by assumption. now apply occurs_char_cons.
Qed.

(** Deleting a character leaves none of it and brings in no other. *)
Lemma delete_char_removes (a : ascii) (s : string) :
  occurs (String a EmptyString) (replace (String a EmptyString) EmptyString s) = false.
Proof.
  induction s as [|c s IH]; [reflexivity|].
  destruct (ascii_dec a c) as [<-|Hc].
  - now rewrite replace_char_hit, append_nil.
  - rewrite replace_char_miss by assumption. now apply occurs_char_cons.
Qed.

Lemma delete_char_keeps_absent (a x : ascii) (s : string) :
  occurs (String x EmptyString) s = false ->
  occurs (String x EmptyString) (replace (String a EmptyString) EmptyString s) = false.
Proof.
  induction s as [|c s IH]; [reflexivity|]. intros H.
  apply occurs_char_cons in H as [Hx Ho].
  destruct (ascii_dec a c) as [<-|Hc].
  - rewrite replace_char_hit, append_nil. auto.
  - rewrite replace_char_miss by assumption. apply occurs_char_cons. auto.
Qed.

Lemma drop_first_keeps_absent (x : ascii) (s : string) :
  occurs (String x EmptyString) s = false ->
  occurs (String x EmptyString) (drop_chars 1 s) = false.
Proof.
  destruct s as [|c s]; [auto|]. intros H.
  now apply occurs_char_cons in H as [_ Ho].
Qed.

(** X22: the stack name the batch script derives from a base path
    contains neither "/" nor "-", whatever the base path is. *)
Theorem rndr_name_has_no_separator (monbase : string) :
  occurs "/" (rndr_name monbase) = false /\
  occurs "-" (rndr_name monbase) = false.
Proof.
  unfold rndr_name. split; apply drop_first_keeps_absent.
  - apply delete_char_keeps_absent. now apply replace_char_removes.
  - apply delete_char_removes.
Qed.
